(** * Article list page ([src/pages/Article/List/index.tsx])

    A shallow embedding of the [ArticleList] component.

    - Parameter objects are finite maps from property names to JavaScript
      values; [fetchData_getParams] is the object [fetchData] builds.
    - The closures of the component ([fetchData], [resetParamsAndRefresh],
      [refreshData], [handleStateChange], ...) are programs of a small
      state-and-output monad: they read and write the component state and
      emit the calls the component makes to the outside (the store's
      endpoints, [Modal.confirm], [scrollTo]).
    - The component is a transition system: an event is the mount, an
      action of the user on a widget, or the settlement of a promise the
      component is waiting for; a step runs the handler the source binds
      to the event.

    What the component runs on (veact's watcher, veact-use's loading
    indicator, antd's dialog, the promises) is not part of the sources.
    It is modelled by what the component can rely on: a watcher that runs
    its callback once the watched object has changed, at one of two
    moments ([WatchFlush]); a loading indicator with an unspecified
    implementation ([UseLoading]); a dialog whose [onOk] runs when the
    user confirms; [then]-callbacks that run when their promise resolves.
    The statements hold for every choice of these. *)

From Stdlib Require Import ZArith String List.
From stdpp Require Import base option gmap strings list fin_maps.

Local Open Scope string_scope.
Local Open Scope list_scope.
Local Open Scope nat_scope.

(** ** JavaScript values and plain objects *)

Module Js.

(** The values that occur in the page's parameter objects: [undefined],
    strings (slugs, the sentinel, the keyword, string enums) and numbers
    (page numbers, numeric enums). *)
Inductive value : Type :=
| Undefined
| Str (s : string)
| Num (n : Z).

#[global] Instance value_eq_dec : EqDecision value.
Proof. solve_decision. Defined.

(** A plain object keyed by property name.  A property may be present
    and hold [Undefined]: [{ page: undefined }] has the own key [page]. *)
Abbreviation object := (gmap string value).

(** [o[k]] / [Reflect.get(o, k)]: a missing property reads [undefined]. *)
Definition get (o : object) (k : string) : value :=
  default Undefined (o !! k).

(** [Object.keys(o)], in the order of the map.  Where the source iterates
    over the keys of an object literal, the order of the literal is used
    instead ([DEFAULT_FILTER_PARAMS_literal]). *)
Definition keys (o : object) : list string := (map_to_list o).*1.

(** [{ ...a, ...b }]: the properties of [b] win on collision. *)
Definition spread (a b : object) : object := b ∪ a.

(** [{ ...o }] for an optional argument: spreading [undefined] adds
    nothing. *)
Definition spread_opt (o : option object) : object := default ∅ o.

(** [Reflect.deleteProperty(o, k)] *)
Definition deleteProperty (o : object) (k : string) : object := delete k o.

(** [Boolean(s)] on a string: only the empty string is falsy. *)
Definition Boolean (s : string) : bool := negb (String.eqb s EmptyString).

(** [xs.forEach(f)] for a callback that updates an object in place. *)
Definition forEach {A S : Type} (xs : list A) (f : A → S → S) (s : S) : S :=
  foldl (λ acc x, f x acc) s xs.

(** A request carries the parameter [k] when reading it gives a value. *)
Definition carries (o : object) (k : string) : Prop := get o k ≠ Undefined.

End Js.

(** ** Constants and records of the page *)

Definition SELECT_ALL_VALUE : Js.value := Js.Str "ALL".

(** Modelled from the spec: the enum [PublishState] of
    [@/constants/publish], which is not part of the sources at hand; the
    glossary gives it as one of Draft / Published / Recycle (bin). *)
Inductive PublishState : Type :=
| Draft
| Published
| Recycle.

#[global] Instance PublishState_eq_dec : EqDecision PublishState.
Proof. solve_decision. Defined.

(** Article ids travel as plain values: the selection holds strings, the
    row action passes [article._id!] as it finds it. *)
Definition ArticleId : Type := Js.value.

(** The records of [@/constants]: only the fields this page reads. *)
Record Article : Type := { _id : ArticleId }.

Record Tag : Type := { slug : string; name : string; articles_count : Z }.

Record CategoryTree : Type := { category_slug : string }.

Record Pagination : Type := { current_page : Z; per_page : Z; total : Z }.

(** [ResponsePaginationData<Article>] *)
Record ResponsePaginationData : Type := {
  data : list Article;
  pagination : option Pagination;
}.

(** The fields of the reactive filter object, one per select of the
    toolbar, and the property each [onChange] assigns. *)
Inductive FilterField : Type :=
| FState
| FPublic
| FOrigin
| FLang
| FSort
| FTagSlug
| FCategorySlug.

Definition field_key (f : FilterField) : string :=
  match f with
  | FState => "state"
  | FPublic => "public"
  | FOrigin => "origin"
  | FLang => "lang"
  | FSort => "sort"
  | FTagSlug => "tag_slug"
  | FCategorySlug => "category_slug"
  end.

(** An entry of the bulk-action [DropdownMenu]: its [onClick] is
    [handleStateChange(selectedIds.value, target)]. *)
Record BulkOption : Type := { label : string; target : PublishState }.

Definition bulkOptions : list BulkOption :=
  [ {| label := "退为草稿"; target := Draft |};
    {| label := "直接发布"; target := Published |};
    {| label := "移回收站"; target := Recycle |} ].

(** ** The runtime the component runs on *)

(** [useWatch] comes from veact: the callback runs after the watched
    object was mutated.  Whether it runs inside the assignment or once the
    running handler has finished is the scheduler's business. *)
Inductive WatchFlush : Type :=
| WatchSync
| WatchDeferred.

(** [useLoading] comes from veact-use.  [loading.promise(p)] starts the
    indicator when it is called and stops it when [p] settles;
    [loading.state.value] is the flag the widgets read. *)
Class UseLoading : Type := {
  loading_state : Type;
  loading_init : loading_state;
  loading_start : loading_state → loading_state;
  loading_stop : loading_state → loading_state;
  loading_value : loading_state → bool;
}.

(** The indicator as a plain flag. *)
Definition flag_loading : UseLoading :=
  {| loading_state := bool;
     loading_init := false;
     loading_start := λ _, true;
     loading_stop := λ _, false;
     loading_value := λ b, b |}.

(** The indicator as a count of the promises it is waiting for. *)
Definition counting_loading : UseLoading :=
  {| loading_state := nat;
     loading_init := 0;
     loading_start := S;
     loading_stop := Nat.pred;
     loading_value := λ n, negb (Nat.eqb n 0) |}.

(** What the component asks of the outside world. *)
Inductive effect : Type :=
| GetArticles (params : Js.object)
| GetCategories (params : Js.object)
| GetTags (params : Js.object)
| PatchArticlesState (articleIds : list ArticleId) (state : PublishState)
| ModalConfirm (articleIds : list ArticleId) (state : PublishState)
| ScrollTo.

(** What happens to the component: the mount, the user's actions on the
    widgets, and the settlement of a pending promise ([Some] result when it
    resolves, [None] when it rejects). *)
Inductive event : Type :=
| Mounted                                      (* [onMounted], l. 143 *)
| FilterChange (f : FilterField) (v : Js.value)
                                 (* [onChange] of a select, l. 165-297 *)
| KeywordChange (s : string)     (* [onChange] of the search, l. 306 *)
| Search                         (* [onSearch], l. 304 *)
| ResetClick                     (* [onClick] of the reset button, l. 313 *)
| Select (ids : list ArticleId)  (* [onSelecte] of the table, l. 348 *)
| BulkMenuClick (i : nat)        (* entry [i] of the bulk menu, l. 320-338 *)
| UpdateState (a : Article) (state : PublishState)
                                 (* [onUpdateState] of the table, l. 351 *)
| Paginate (page pageSize : Z)   (* [onPagination] of the table, l. 352 *)
| ModalOk (i : nat)              (* OK in the open dialog [i] *)
| ModalCancel (i : nat)          (* Cancel in the open dialog [i] *)
| ArticlesSettled (i : nat) (result : option ResponsePaginationData)
| CategoriesSettled (result : option (list CategoryTree))
| TagsSettled (result : option (list Tag))
| PatchSettled (i : nat) (ok : bool).

(** ** The request parameters of [fetchData] *)

(** The callback of the [forEach] of lines 92-96. *)
Definition deleteIfAll (paramKey : string) (getParams : Js.object) : Js.object :=
  if decide (Js.get getParams paramKey = SELECT_ALL_VALUE)
  then Js.deleteProperty getParams paramKey
  else getParams.

(** Lines 87-96: the object literal, then the loop over its keys. *)
Definition fetchData_getParams
    (params : option Js.object) (filterParams : Js.object)
    (serarchKeyword : string) : Js.object :=
  let getParams : Js.object :=
    <["keyword" :=
        if Js.Boolean serarchKeyword then Js.Str serarchKeyword
        else Js.Undefined]>
      (Js.spread (Js.spread_opt params) filterParams) in
  Js.forEach (Js.keys getParams) deleteIfAll getParams.

(** [{ page: p, per_page: n }] *)
Definition page_params (page per_page : Js.value) : Js.object :=
  <["per_page" := per_page]> (<["page" := page]> ∅).

(** ** The component *)

Section Component.

(** [SortTypeWithHot.Desc] of [@/constants/sort]. *)
Variable SortTypeWithHot_Desc : Js.value.

Variable flush : WatchFlush.

Context {use_loading : UseLoading}.

(** The literal of lines 41-49, in the order it is written. *)
Definition DEFAULT_FILTER_PARAMS_literal : list (string * Js.value) :=
  [ ("sort", SortTypeWithHot_Desc);
    ("tag_slug", SELECT_ALL_VALUE);
    ("category_slug", SELECT_ALL_VALUE);
    ("lang", SELECT_ALL_VALUE);
    ("public", SELECT_ALL_VALUE);
    ("origin", SELECT_ALL_VALUE);
    ("state", SELECT_ALL_VALUE) ].

Definition DEFAULT_FILTER_PARAMS : Js.object :=
  list_to_map DEFAULT_FILTER_PARAMS_literal.

Record State : Type := {
  (* the component's own state *)
  loading : loading_state;
    (* [const loading = useLoading()] *)
  article : ResponsePaginationData;
    (* [useShallowReactive({ data: [], pagination: undefined })] *)
  loadingCategory : loading_state;
    (* [useLoading()] *)
  categoriesTree : list CategoryTree;
    (* [useRef([])] *)
  loadingTag : loading_state;
    (* [useLoading()] *)
  tags : list Tag;
    (* [useRef([])] *)
  serarchKeyword : string;
    (* [useRef('')] *)
  filterParams : Js.object;
    (* [useReactive({ ...DEFAULT_FILTER_PARAMS })] *)
  selectedIds : list ArticleId;
    (* [useRef([])] *)
  (* what the runtime and the user interface hold for the component *)
  watchQueued : bool;
    (* the watcher job is queued (deferred flush only) *)
  articleRequests : list Js.object;
    (* pending [getArticles] promises *)
  categoryRequests : nat;
    (* pending [getCategories] promises *)
  tagRequests : nat;
    (* pending [getTags] promises *)
  modals : list (list ArticleId * PublishState);
    (* open confirmation dialogs *)
  patchRequests : list (list ArticleId * PublishState);
    (* pending [patchArticlesState] promises *)
}.

Definition upd_loading (f : loading_state → loading_state) (s : State) : State :=
  {| loading := f (loading s); article := article s; loadingCategory :=
     loadingCategory s; categoriesTree := categoriesTree s; loadingTag :=
     loadingTag s; tags := tags s; serarchKeyword := serarchKeyword s;
     filterParams := filterParams s; selectedIds := selectedIds s;
     watchQueued := watchQueued s; articleRequests := articleRequests s;
     categoryRequests := categoryRequests s; tagRequests := tagRequests s;
     modals := modals s; patchRequests := patchRequests s |}.

Definition upd_article (f : ResponsePaginationData → ResponsePaginationData) (s : State) : State :=
  {| loading := loading s; article := f (article s); loadingCategory :=
     loadingCategory s; categoriesTree := categoriesTree s; loadingTag :=
     loadingTag s; tags := tags s; serarchKeyword := serarchKeyword s;
     filterParams := filterParams s; selectedIds := selectedIds s;
     watchQueued := watchQueued s; articleRequests := articleRequests s;
     categoryRequests := categoryRequests s; tagRequests := tagRequests s;
     modals := modals s; patchRequests := patchRequests s |}.

Definition upd_loadingCategory (f : loading_state → loading_state) (s : State) : State :=
  {| loading := loading s; article := article s; loadingCategory := f
     (loadingCategory s); categoriesTree := categoriesTree s; loadingTag :=
     loadingTag s; tags := tags s; serarchKeyword := serarchKeyword s;
     filterParams := filterParams s; selectedIds := selectedIds s;
     watchQueued := watchQueued s; articleRequests := articleRequests s;
     categoryRequests := categoryRequests s; tagRequests := tagRequests s;
     modals := modals s; patchRequests := patchRequests s |}.

Definition upd_categoriesTree (f : list CategoryTree → list CategoryTree) (s : State) : State :=
  {| loading := loading s; article := article s; loadingCategory :=
     loadingCategory s; categoriesTree := f (categoriesTree s); loadingTag
     := loadingTag s; tags := tags s; serarchKeyword := serarchKeyword s;
     filterParams := filterParams s; selectedIds := selectedIds s;
     watchQueued := watchQueued s; articleRequests := articleRequests s;
     categoryRequests := categoryRequests s; tagRequests := tagRequests s;
     modals := modals s; patchRequests := patchRequests s |}.

Definition upd_loadingTag (f : loading_state → loading_state) (s : State) : State :=
  {| loading := loading s; article := article s; loadingCategory :=
     loadingCategory s; categoriesTree := categoriesTree s; loadingTag := f
     (loadingTag s); tags := tags s; serarchKeyword := serarchKeyword s;
     filterParams := filterParams s; selectedIds := selectedIds s;
     watchQueued := watchQueued s; articleRequests := articleRequests s;
     categoryRequests := categoryRequests s; tagRequests := tagRequests s;
     modals := modals s; patchRequests := patchRequests s |}.

Definition upd_tags (f : list Tag → list Tag) (s : State) : State :=
  {| loading := loading s; article := article s; loadingCategory :=
     loadingCategory s; categoriesTree := categoriesTree s; loadingTag :=
     loadingTag s; tags := f (tags s); serarchKeyword := serarchKeyword s;
     filterParams := filterParams s; selectedIds := selectedIds s;
     watchQueued := watchQueued s; articleRequests := articleRequests s;
     categoryRequests := categoryRequests s; tagRequests := tagRequests s;
     modals := modals s; patchRequests := patchRequests s |}.

Definition upd_serarchKeyword (f : string → string) (s : State) : State :=
  {| loading := loading s; article := article s; loadingCategory :=
     loadingCategory s; categoriesTree := categoriesTree s; loadingTag :=
     loadingTag s; tags := tags s; serarchKeyword := f (serarchKeyword s);
     filterParams := filterParams s; selectedIds := selectedIds s;
     watchQueued := watchQueued s; articleRequests := articleRequests s;
     categoryRequests := categoryRequests s; tagRequests := tagRequests s;
     modals := modals s; patchRequests := patchRequests s |}.

Definition upd_filterParams (f : Js.object → Js.object) (s : State) : State :=
  {| loading := loading s; article := article s; loadingCategory :=
     loadingCategory s; categoriesTree := categoriesTree s; loadingTag :=
     loadingTag s; tags := tags s; serarchKeyword := serarchKeyword s;
     filterParams := f (filterParams s); selectedIds := selectedIds s;
     watchQueued := watchQueued s; articleRequests := articleRequests s;
     categoryRequests := categoryRequests s; tagRequests := tagRequests s;
     modals := modals s; patchRequests := patchRequests s |}.

Definition upd_selectedIds (f : list ArticleId → list ArticleId) (s : State) : State :=
  {| loading := loading s; article := article s; loadingCategory :=
     loadingCategory s; categoriesTree := categoriesTree s; loadingTag :=
     loadingTag s; tags := tags s; serarchKeyword := serarchKeyword s;
     filterParams := filterParams s; selectedIds := f (selectedIds s);
     watchQueued := watchQueued s; articleRequests := articleRequests s;
     categoryRequests := categoryRequests s; tagRequests := tagRequests s;
     modals := modals s; patchRequests := patchRequests s |}.

Definition upd_watchQueued (f : bool → bool) (s : State) : State :=
  {| loading := loading s; article := article s; loadingCategory :=
     loadingCategory s; categoriesTree := categoriesTree s; loadingTag :=
     loadingTag s; tags := tags s; serarchKeyword := serarchKeyword s;
     filterParams := filterParams s; selectedIds := selectedIds s;
     watchQueued := f (watchQueued s); articleRequests := articleRequests s;
     categoryRequests := categoryRequests s; tagRequests := tagRequests s;
     modals := modals s; patchRequests := patchRequests s |}.

Definition upd_articleRequests (f : list Js.object → list Js.object) (s : State) : State :=
  {| loading := loading s; article := article s; loadingCategory :=
     loadingCategory s; categoriesTree := categoriesTree s; loadingTag :=
     loadingTag s; tags := tags s; serarchKeyword := serarchKeyword s;
     filterParams := filterParams s; selectedIds := selectedIds s;
     watchQueued := watchQueued s; articleRequests := f (articleRequests s);
     categoryRequests := categoryRequests s; tagRequests := tagRequests s;
     modals := modals s; patchRequests := patchRequests s |}.

Definition upd_categoryRequests (f : nat → nat) (s : State) : State :=
  {| loading := loading s; article := article s; loadingCategory :=
     loadingCategory s; categoriesTree := categoriesTree s; loadingTag :=
     loadingTag s; tags := tags s; serarchKeyword := serarchKeyword s;
     filterParams := filterParams s; selectedIds := selectedIds s;
     watchQueued := watchQueued s; articleRequests := articleRequests s;
     categoryRequests := f (categoryRequests s); tagRequests := tagRequests
     s; modals := modals s; patchRequests := patchRequests s |}.

Definition upd_tagRequests (f : nat → nat) (s : State) : State :=
  {| loading := loading s; article := article s; loadingCategory :=
     loadingCategory s; categoriesTree := categoriesTree s; loadingTag :=
     loadingTag s; tags := tags s; serarchKeyword := serarchKeyword s;
     filterParams := filterParams s; selectedIds := selectedIds s;
     watchQueued := watchQueued s; articleRequests := articleRequests s;
     categoryRequests := categoryRequests s; tagRequests := f (tagRequests
     s); modals := modals s; patchRequests := patchRequests s |}.

Definition upd_modals (f : list (list ArticleId * PublishState) → list (list ArticleId * PublishState)) (s : State) : State :=
  {| loading := loading s; article := article s; loadingCategory :=
     loadingCategory s; categoriesTree := categoriesTree s; loadingTag :=
     loadingTag s; tags := tags s; serarchKeyword := serarchKeyword s;
     filterParams := filterParams s; selectedIds := selectedIds s;
     watchQueued := watchQueued s; articleRequests := articleRequests s;
     categoryRequests := categoryRequests s; tagRequests := tagRequests s;
     modals := f (modals s); patchRequests := patchRequests s |}.

Definition upd_patchRequests (f : list (list ArticleId * PublishState) → list (list ArticleId * PublishState)) (s : State) : State :=
  {| loading := loading s; article := article s; loadingCategory :=
     loadingCategory s; categoriesTree := categoriesTree s; loadingTag :=
     loadingTag s; tags := tags s; serarchKeyword := serarchKeyword s;
     filterParams := filterParams s; selectedIds := selectedIds s;
     watchQueued := watchQueued s; articleRequests := articleRequests s;
     categoryRequests := categoryRequests s; tagRequests := tagRequests s;
     modals := modals s; patchRequests := f (patchRequests s) |}.

(** The state of the first render. *)
Definition init : State :=
  {| loading := loading_init;
     article := {| data := []; pagination := None |};
     loadingCategory := loading_init;
     categoriesTree := [];
     loadingTag := loading_init;
     tags := [];
     serarchKeyword := EmptyString;
     filterParams := DEFAULT_FILTER_PARAMS;
     selectedIds := [];
     watchQueued := false;
     articleRequests := [];
     categoryRequests := 0;
     tagRequests := 0;
     modals := [];
     patchRequests := [] |}.

(** *** Handlers as programs over the state, with the effects they emit *)

Definition M (A : Type) : Type := State → A * State * list effect.

#[global] Instance M_ret : MRet M := λ A a s, (a, s, []).

#[global] Instance M_bind : MBind M := λ A B k m s,
  let r1 := m s in
  let r2 := k r1.1.1 r1.1.2 in
  (r2.1.1, r2.1.2, r1.2 ++ r2.2).

Definition gets {A : Type} (f : State → A) : M A := λ s, (f s, s, []).

Definition modify (f : State → State) : M unit := λ s, (tt, f s, []).

Definition emit (e : effect) : M unit := λ s, (tt, s, [e]).

(** [xs.forEach(f)] for a callback that is itself a handler. *)
Fixpoint forEachM {A : Type} (xs : list A) (f : A → M unit) : M unit :=
  match xs with
  | [] => mret tt
  | x :: xs' => f x;; forEachM xs' f
  end.

(** [batchedUpdates(fn)] runs [fn]; what it batches is the re-rendering. *)
Definition batchedUpdates (fn : M unit) : M unit := fn.

Definition handleSelect (ids : list ArticleId) : M unit :=
  modify (upd_selectedIds (λ _, ids)).

Definition fetchCategories : M unit :=
  emit (GetCategories {[ "per_page" := Js.Num 50 ]});;
  modify (upd_loadingCategory loading_start);;
  modify (upd_categoryRequests S).

Definition fetchCategories_then (tree : list CategoryTree) : M unit :=
  modify (upd_categoriesTree (λ _, tree)).

Definition fetchTags : M unit :=
  emit (GetTags {[ "per_page" := Js.Num 50 ]});;
  modify (upd_loadingTag loading_start);;
  modify (upd_tagRequests S).

Definition fetchTags_then (result_data : list Tag) : M unit :=
  modify (upd_tags (λ _, result_data)).

Definition fetchData (params : option Js.object) : M unit :=
  fp ← gets filterParams;
  kw ← gets serarchKeyword;
  let getParams := fetchData_getParams params fp kw in
  emit (GetArticles getParams);;
  modify (upd_loading loading_start);;
  modify (upd_articleRequests (λ rs, rs ++ [getParams])).

Definition fetchData_then (result : ResponsePaginationData) : M unit :=
  batchedUpdates
    (modify (upd_article
               (λ a, {| data := data result; pagination := pagination a |}));;
     modify (upd_article
               (λ a, {| data := data a; pagination := pagination result |})));;
  emit ScrollTo.

(** [useWatch(filterParams, () => fetchData())] *)
Definition watch_callback : M unit := fetchData None.

Definition trigger : M unit :=
  match flush with
  | WatchSync => watch_callback
  | WatchDeferred => modify (upd_watchQueued (λ _, true))
  end.

(** [filterParams[k] = v] on the reactive object: the property is
    written, and the watcher is notified when this added the property or
    changed its value. *)
Definition filterParams_set (k : string) (v : Js.value) : M unit :=
  fp ← gets filterParams;
  modify (upd_filterParams (λ _, <[k := v]> fp));;
  if decide (fp !! k = Some v) then mret tt else trigger.

Definition resetParamsAndRefresh : M unit :=
  modify (upd_serarchKeyword (λ _, EmptyString));;
  fp ← gets filterParams;
  if decide (fp = DEFAULT_FILTER_PARAMS) then fetchData None
  else
    batchedUpdates
      (forEachM (DEFAULT_FILTER_PARAMS_literal.*1)
         (λ paramKey,
            filterParams_set paramKey (Js.get DEFAULT_FILTER_PARAMS paramKey))).

Definition optional (f : Pagination → Z) (p : option Pagination) : Js.value :=
  from_option (λ pg, Js.Num (f pg)) Js.Undefined p.

Definition refreshData : M unit :=
  a ← gets article;
  fetchData
    (Some (page_params (optional current_page (pagination a))
                       (optional per_page (pagination a)))).

(** [Modal.confirm({ ..., onOk })]: the dialog opens and keeps the
    arguments its [onOk] closes over. *)
Definition handleStateChange
    (articleIds : list ArticleId) (state : PublishState) : M unit :=
  emit (ModalConfirm articleIds state);;
  modify (upd_modals (λ ms, ms ++ [(articleIds, state)])).

(** The [onOk] of that dialog: the call of [patchArticlesState]. *)
Definition handleStateChange_onOk
    (articleIds : list ArticleId) (state : PublishState) : M unit :=
  emit (PatchArticlesState articleIds state);;
  modify (upd_patchRequests (λ ps, ps ++ [(articleIds, state)])).

(** The [then] of the patch promise. *)
Definition handleStateChange_then : M unit := refreshData.

(** [disabled={!selectedIds.value.length}] *)
Definition bulk_disabled (s : State) : bool :=
  Nat.eqb (length (selectedIds s)) 0.

(** Modelled from the spec: the component [DropdownMenu] of
    [@/components/common/DropdownMenu] is not part of the sources at hand;
    it is one of the widgets the specification takes as correct.  A click
    on an entry runs the [onClick] of the entry, and a disabled menu
    delivers no click. *)
Definition DropdownMenu_click (disabled : bool) (onClick : M unit) : M unit :=
  if disabled then mret tt else onClick.

(** [onMounted(() => { ... })] *)
Definition onMounted : M unit :=
  fetchData None;; fetchCategories;; fetchTags.

(** *** The component as a transition system *)

(** The handler the source binds to each event.  The OK of a dialog calls its [onOk] and leaves the
    dialog waiting for the promise; when the promise rejects the dialog is
    open again, when it resolves the [then]-callback runs.  The settlement
    of a request stops its loading indicator and, when it resolved, runs
    the [then]-callback of the request. *)
Definition handle (e : event) : M unit :=
  match e with
  | Mounted => onMounted
  | FilterChange f v => filterParams_set (field_key f) v
  | KeywordChange kw => modify (upd_serarchKeyword (λ _, kw))
  | Search => fetchData None
  | ResetClick => resetParamsAndRefresh
  | Select ids => handleSelect ids
  | BulkMenuClick i =>
      s ← gets id;
      DropdownMenu_click (bulk_disabled s)
        (match bulkOptions !! i with
         | Some o => handleStateChange (selectedIds s) (target o)
         | None => mret tt
         end)
  | UpdateState a state => handleStateChange [_id a] state
  | Paginate page pageSize =>
      fetchData (Some (page_params (Js.Num page) (Js.Num pageSize)))
  | ModalOk i =>
      ms ← gets modals;
      match ms !! i with
      | Some (articleIds, state) =>
          modify (upd_modals (delete i));;
          handleStateChange_onOk articleIds state
      | None => mret tt
      end
  | ModalCancel i => modify (upd_modals (delete i))
  | ArticlesSettled i result =>
      rs ← gets articleRequests;
      match rs !! i with
      | Some _ =>
          modify (upd_articleRequests (delete i));;
          modify (upd_loading loading_stop);;
          match result with
          | Some r => fetchData_then r
          | None => mret tt
          end
      | None => mret tt
      end
  | CategoriesSettled result =>
      n ← gets categoryRequests;
      match n with
      | S n' =>
          modify (upd_categoryRequests (λ _, n'));;
          modify (upd_loadingCategory loading_stop);;
          match result with
          | Some tree => fetchCategories_then tree
          | None => mret tt
          end
      | O => mret tt
      end
  | TagsSettled result =>
      n ← gets tagRequests;
      match n with
      | S n' =>
          modify (upd_tagRequests (λ _, n'));;
          modify (upd_loadingTag loading_stop);;
          match result with
          | Some result_data => fetchTags_then result_data
          | None => mret tt
          end
      | O => mret tt
      end
  | PatchSettled i ok =>
      ps ← gets patchRequests;
      match ps !! i with
      | Some p =>
          modify (upd_patchRequests (delete i));;
          if ok then handleStateChange_then
          else modify (upd_modals (λ ms, ms ++ [p]))
      | None => mret tt
      end
  end.

(** The queued watcher job runs when the handler has finished. *)
Definition flush_watch : M unit :=
  s ← gets id;
  if watchQueued s then modify (upd_watchQueued (λ _, false));; watch_callback
  else mret tt.

Definition step (e : event) (s : State) : State * list effect :=
  let r := (handle e;; flush_watch) s in (r.1.2, r.2).

(** A run from [s]: the final state, and for every event the effects its
    step emitted. *)
Fixpoint run (es : list event) (s : State)
    : State * list (event * list effect) :=
  match es with
  | [] => (s, [])
  | e :: es' =>
      let r := step e s in
      let rest := run es' r.1 in
      (rest.1, (e, r.2) :: rest.2)
  end.

Definition reachable (s : State) : Prop := ∃ es, (run es init).1 = s.

(** *** Vocabulary of the statements *)

(** A handler keeps a property of the state. *)
Definition preserves {A : Type} (P : State → Prop) (m : M A) : Prop :=
  ∀ s, P s → P (m s).1.2.

(** A handler emits only effects of one kind. *)
Definition emits_only {A : Type} (Q : effect → Prop) (m : M A) : Prop :=
  ∀ s, Forall Q (m s).2.

(** A handler started where [P] holds ends where [P] holds and emits
    only effects that satisfy [Q]. *)
Definition triple {A : Type}
    (P : State → Prop) (Q : effect → Prop) (m : M A) : Prop :=
  ∀ s, P s → P (m s).1.2 ∧ Forall Q (m s).2.

(** A property of the state that looks neither at the filter params nor
    at the keyword. *)
Definition frame_closed (P : State → Prop) : Prop :=
  (∀ s f, P s → P (upd_loading f s)) ∧
  (∀ s f, P s → P (upd_article f s)) ∧
  (∀ s f, P s → P (upd_loadingCategory f s)) ∧
  (∀ s f, P s → P (upd_categoriesTree f s)) ∧
  (∀ s f, P s → P (upd_loadingTag f s)) ∧
  (∀ s f, P s → P (upd_tags f s)) ∧
  (∀ s f, P s → P (upd_selectedIds f s)) ∧
  (∀ s f, P s → P (upd_watchQueued f s)) ∧
  (∀ s f, P s → P (upd_articleRequests f s)) ∧
  (∀ s f, P s → P (upd_categoryRequests f s)) ∧
  (∀ s f, P s → P (upd_tagRequests f s)) ∧
  (∀ s f, P s → P (upd_modals f s)) ∧
  (∀ s f, P s → P (upd_patchRequests f s)).

End Component.

(** The names of the filter constraints: tag, category, language,
    visibility, origin, publish state and sort order. *)
Definition FILTER_KEYS : gset string :=
  list_to_set
    ["tag_slug"; "category_slug"; "lang"; "public"; "origin"; "state"; "sort"].

Definition is_list_request (ef : effect) : Prop :=
  match ef with
  | GetArticles _ => True
  | _ => False
  end.

(** The two user actions that ask for a state change: the bulk menu and
    the row action of the table. *)
Definition is_state_change_request (e : event) : Prop :=
  match e with
  | BulkMenuClick _ | UpdateState _ _ => True
  | _ => False
  end.

(** A run's trace: for every event, the effects its step emitted. *)
Abbreviation trace := (list (event * list effect)).

(** Before position [n] of the trace a state-change request opened the
    confirmation dialog for these arguments. *)
Definition confirm_opened_before
    (tr : trace) (n : nat) (ids : list ArticleId) (st : PublishState) : Prop :=
  ∃ m e effs,
    m < n ∧ tr !! m = Some (e, effs) ∧
    is_state_change_request e ∧ effs = [ModalConfirm ids st].

(** Before position [n] the user confirmed such a dialog, which called
    the patch endpoint with these arguments. *)
Definition patch_called_before
    (tr : trace) (n : nat) (ids : list ArticleId) (st : PublishState) : Prop :=
  ∃ m i,
    m < n ∧ tr !! m = Some (ModalOk i, [PatchArticlesState ids st]).

(** The effects that are plain reads of the outside world: neither the
    patch call nor the opening of a dialog. *)
Definition is_query (ef : effect) : Prop :=
  match ef with
  | PatchArticlesState _ _ | ModalConfirm _ _ => False
  | _ => True
  end.

(** What a trace allows its entry at position [n] to be. *)
Definition entry_ok (tr : trace) (n : nat) (e : event) (effs : list effect)
    : Prop :=
  match e with
  | BulkMenuClick i =>
      effs = [] ∨
      ∃ ids o, ids ≠ [] ∧ bulkOptions !! i = Some o ∧
               effs = [ModalConfirm ids (target o)]
  | UpdateState a st => effs = [ModalConfirm [_id a] st]
  | ModalOk i =>
      effs = [] ∨
      ∃ ids st, effs = [PatchArticlesState ids st] ∧
                confirm_opened_before tr n ids st
  | PatchSettled i ok =>
      effs = [] ∨
      (ok = true ∧
       ∃ q ids st, effs = [GetArticles q] ∧ patch_called_before tr n ids st)
  | _ => Forall is_query effs
  end.

(** Every open dialog and every pending patch promise has its origin in
    the trace. *)
Definition pending_ok
    (tr : trace)
    (modals patchRequests : list (list ArticleId * PublishState)) : Prop :=
  (∀ ids st, (ids, st) ∈ modals →
             confirm_opened_before tr (length tr) ids st) ∧
  (∀ ids st, (ids, st) ∈ patchRequests →
             confirm_opened_before tr (length tr) ids st ∧
             patch_called_before tr (length tr) ids st).

(** The events whose handlers deal with the confirmation dialog or the
    patch promise. *)
Definition touches_dialogs (e : event) : bool :=
  match e with
  | BulkMenuClick _ | UpdateState _ _ | ModalOk _ | ModalCancel _
  | PatchSettled _ _ => true
  | _ => false
  end.

(** Every kind of request that is pending has its loading flag set. *)
Definition flags_cover_requests {use_loading : UseLoading} (s : State)
    : Prop :=
  (articleRequests s ≠ [] → loading_value (loading s) = true) ∧
  (categoryRequests s ≠ 0 → loading_value (loadingCategory s) = true) ∧
  (tagRequests s ≠ 0 → loading_value (loadingTag s) = true).

(** For the counting indicator: each count is the number of pending
    requests of its kind. *)
Definition counts_match (s : State (use_loading := counting_loading)) : Prop :=
  loading s = length (articleRequests s) ∧
  loadingCategory s = categoryRequests s ∧
  loadingTag s = tagRequests s.

(** The events whose handlers call [fetchData] with a page. *)
Definition paginates (e : event) : bool :=
  match e with
  | Paginate _ _ | PatchSettled _ _ => true
  | _ => false
  end.

(** The events whose handlers write the search keyword. *)
Definition writes_keyword (e : event) : bool :=
  match e with
  | KeywordChange _ | ResetClick => true
  | _ => false
  end.

(** What a list request reads at [keyword] for a given search keyword. *)
Definition keyword_param (kw : string) : Js.value :=
  if decide (kw = EmptyString ∨ kw = "ALL") then Js.Undefined else Js.Str kw.

(** A page of one article, as a list fetch may return it. *)
Definition sample_page : ResponsePaginationData :=
  {| data := [ {| _id := Js.Str "a1" |} ];
     pagination := Some {| current_page := 3; per_page := 16; total := 40 |} |}.

(** * Properties *)

(** ** The parameter object *)

Section GetParams.

Implicit Types (o : Js.object) (k : string) (ks : list string).

Lemma deleteIfAll_lookup k o j :
  deleteIfAll k o !! j =
  if decide (j = k ∧ o !! k = Some SELECT_ALL_VALUE) then None else o !! j.
Proof.
  unfold deleteIfAll, Js.get, Js.deleteProperty.
  destruct (decide (default Js.Undefined (o !! k) = SELECT_ALL_VALUE)) as [E|E].
  - destruct (o !! k) as [v|] eqn:Hk; simpl in E; [subst v | discriminate].
    destruct (decide (j = k)) as [->|Hne].
    + rewrite lookup_delete_eq. by rewrite decide_True.
    + rewrite lookup_delete_ne by done. rewrite decide_False; [done | tauto].
  - rewrite decide_False; [done |].
    intros [_ Hk]. rewrite Hk in E. by apply E.
Qed.

Lemma forEach_deleteIfAll_lookup ks o j :
  Js.forEach ks deleteIfAll o !! j =
  if decide (j ∈ ks ∧ o !! j = Some SELECT_ALL_VALUE) then None else o !! j.
Proof.
  unfold Js.forEach. revert o.
  induction ks as [|k ks IH]; intros o; simpl.
  - done.
  - rewrite IH, !deleteIfAll_lookup.
    destruct (decide (j = k)) as [->|Hne];
      destruct (o !! k) as [v|] eqn:Hk;
      repeat (destruct (decide _) as [?|?]); try done; exfalso;
      rewrite ?elem_of_cons in *; intuition congruence.
Qed.

Lemma elem_of_keys o k : k ∈ Js.keys o ↔ is_Some (o !! k).
Proof.
  unfold Js.keys. rewrite list_elem_of_fmap. split.
  - intros [[k' v] [-> H]]. apply elem_of_map_to_list in H. by exists v.
  - intros [v H]. exists (k, v). split; [done |]. by apply elem_of_map_to_list.
Qed.

(** The deletion loop over the object's own keys is a filter. *)
Lemma delete_sentinels_lookup o j :
  Js.forEach (Js.keys o) deleteIfAll o !! j =
  match o !! j with
  | Some v => if decide (v = SELECT_ALL_VALUE) then None else Some v
  | None => None
  end.
Proof.
  rewrite forEach_deleteIfAll_lookup.
  destruct (o !! j) as [v|] eqn:Hj.
  - destruct (decide (v = SELECT_ALL_VALUE)) as [->|Hv].
    + rewrite decide_True; [done |]. split; [| done].
      apply elem_of_keys. by rewrite Hj.
    + rewrite decide_False; [done |]. intros [_ [= ?]]. by apply Hv.
  - by case_decide.
Qed.

Lemma fetchData_getParams_lookup params fp kw j :
  fetchData_getParams params fp kw !! j =
  match
    (<["keyword" := if Js.Boolean kw then Js.Str kw else Js.Undefined]>
       (Js.spread (Js.spread_opt params) fp) : Js.object) !! j
  with
  | Some v => if decide (v = SELECT_ALL_VALUE) then None else Some v
  | None => None
  end.
Proof. unfold fetchData_getParams. apply delete_sentinels_lookup. Qed.

End GetParams.

Section RequestParams.

Implicit Types (params : option Js.object) (fp : Js.object) (kw k : string).

Lemma Boolean_true_iff kw : Js.Boolean kw = true ↔ kw ≠ EmptyString.
Proof.
  unfold Js.Boolean. destruct (String.eqb_spec kw EmptyString) as [->|Hne].
  - simpl. split; [discriminate | congruence].
  - simpl. tauto.
Qed.

(** The keyword property after the loop: an own key holding [undefined]
    for the empty keyword, no key at all for the keyword [ALL], the
    keyword otherwise. *)
Lemma fetchData_getParams_keyword params fp kw :
  fetchData_getParams params fp kw !! "keyword" =
  if decide (kw = EmptyString) then Some Js.Undefined
  else if decide (kw = "ALL") then None
  else Some (Js.Str kw).
Proof.
  rewrite fetchData_getParams_lookup, lookup_insert_eq.
  destruct (decide (kw = EmptyString)) as [->|Hne]; [done |].
  apply Boolean_true_iff in Hne as ->.
  unfold SELECT_ALL_VALUE.
  destruct (decide (kw = "ALL")) as [->|Hne'].
  - by rewrite decide_True.
  - rewrite decide_False; [done | congruence].
Qed.

(** Every other property comes from the filter params, else from the
    caller's params, unless it holds the sentinel. *)
Lemma fetchData_getParams_other params fp kw k :
  k ≠ "keyword" →
  fetchData_getParams params fp kw !! k =
  match
    match fp !! k with
    | Some v => Some v
    | None => Js.spread_opt params !! k
    end
  with
  | Some v => if decide (v = SELECT_ALL_VALUE) then None else Some v
  | None => None
  end.
Proof.
  intros Hk. rewrite fetchData_getParams_lookup.
  rewrite lookup_insert_ne by done.
  unfold Js.spread. rewrite lookup_union.
  destruct (fp !! k), (Js.spread_opt params !! k); done.
Qed.

Lemma fetchData_getParams_no_sentinel params fp kw k :
  fetchData_getParams params fp kw !! k ≠ Some SELECT_ALL_VALUE.
Proof.
  rewrite fetchData_getParams_lookup.
  destruct (_ !! k) as [v|]; [| done].
  case_decide; congruence.
Qed.

Lemma fetchData_getParams_carries_keyword params fp kw :
  Js.carries (fetchData_getParams params fp kw) "keyword" ↔
  kw ≠ EmptyString ∧ kw ≠ "ALL".
Proof.
  unfold Js.carries, Js.get. rewrite fetchData_getParams_keyword.
  repeat case_decide; simpl; split; try tauto; congruence.
Qed.

End RequestParams.

(** ** The keys of the filter params *)

Lemma field_key_inj f g : field_key f = field_key g → f = g.
Proof. by destruct f, g. Qed.

Lemma field_key_not_keyword f : field_key f ≠ "keyword".
Proof. by destruct f. Qed.

Lemma not_filter_key (fp : Js.object) k :
  dom fp = FILTER_KEYS → k ∉ FILTER_KEYS → fp !! k = None.
Proof. intros Hd Hk. apply not_elem_of_dom. by rewrite Hd. Qed.

Lemma page_not_filter_key : "page" ∉ FILTER_KEYS.
Proof.
  unfold FILTER_KEYS. rewrite elem_of_list_to_set, !elem_of_cons, elem_of_nil.
  intuition discriminate.
Qed.

Lemma per_page_not_filter_key : "per_page" ∉ FILTER_KEYS.
Proof.
  unfold FILTER_KEYS. rewrite elem_of_list_to_set, !elem_of_cons, elem_of_nil.
  intuition discriminate.
Qed.

Lemma keyword_not_filter_key : "keyword" ∉ FILTER_KEYS.
Proof.
  unfold FILTER_KEYS. rewrite elem_of_list_to_set, !elem_of_cons, elem_of_nil.
  intuition discriminate.
Qed.

(** Reading a filter field of the request of a fetch without caller's
    params. *)
Lemma fetchData_getParams_field (fp : Js.object) kw f :
  Js.get (fetchData_getParams None fp kw) (field_key f) =
  if decide (Js.get fp (field_key f) = SELECT_ALL_VALUE) then Js.Undefined
  else Js.get fp (field_key f).
Proof.
  unfold Js.get.
  rewrite fetchData_getParams_other by apply field_key_not_keyword.
  simpl. rewrite lookup_empty.
  destruct (fp !! field_key f) as [w|]; simpl; [| done].
  by destruct (decide (w = SELECT_ALL_VALUE)).
Qed.

(** ** The handlers *)

Ltac unfold_monad :=
  unfold mbind, mret, M_bind, M_ret, gets, modify, emit, batchedUpdates in *.

Section Handlers.

Variable SortTypeWithHot_Desc : Js.value.
Variable flush : WatchFlush.
Context {use_loading : UseLoading}.

Implicit Types (s : State) (e : event) (k : string) (v : Js.value).

(** *** Composition rules *)

Lemma preserves_mret {A} (P : State → Prop) (a : A) :
  preserves P (mret a : M A).
Proof. intros s Hs. exact Hs. Qed.

Lemma preserves_bind {A B} (P : State → Prop) (m : M A) (k : A → M B) :
  preserves P m → (∀ a, preserves P (k a)) → preserves P (m ≫= k).
Proof. intros Hm Hk s Hs. unfold_monad. simpl. apply Hk, Hm, Hs. Qed.

Lemma preserves_gets {A} (P : State → Prop) (f : State → A) :
  preserves P (gets f).
Proof. intros s Hs. exact Hs. Qed.

Lemma preserves_emit (P : State → Prop) (ef : effect) :
  preserves P (emit ef).
Proof. intros s Hs. exact Hs. Qed.

Lemma preserves_modify (P : State → Prop) (f : State → State) :
  (∀ s, P s → P (f s)) → preserves P (modify f).
Proof. intros Hf s Hs. apply Hf, Hs. Qed.

Lemma preserves_forEachM {A} (P : State → Prop) (xs : list A) (f : A → M unit) :
  (∀ x, x ∈ xs → preserves P (f x)) → preserves P (forEachM xs f).
Proof.
  induction xs as [|x xs IH]; intros Hf; simpl.
  - apply preserves_mret.
  - apply preserves_bind.
    + apply Hf. left.
    + intros _. apply IH. intros y Hy. apply Hf. by right.
Qed.

Lemma emits_only_mret {A} (Q : effect → Prop) (a : A) :
  emits_only Q (mret a : M A).
Proof. intros s. constructor. Qed.

Lemma emits_only_bind {A B} (Q : effect → Prop) (m : M A) (k : A → M B) :
  emits_only Q m → (∀ a, emits_only Q (k a)) → emits_only Q (m ≫= k).
Proof.
  intros Hm Hk s. unfold_monad. simpl. apply Forall_app. split; [apply Hm | apply Hk].
Qed.

Lemma emits_only_gets {A} (Q : effect → Prop) (f : State → A) :
  emits_only Q (gets f).
Proof. intros s. constructor. Qed.

Lemma emits_only_modify (Q : effect → Prop) (f : State → State) :
  emits_only Q (modify f).
Proof. intros s. constructor. Qed.

Lemma emits_only_emit (Q : effect → Prop) (ef : effect) :
  Q ef → emits_only Q (emit ef).
Proof. intros H s. by repeat constructor. Qed.

Lemma emits_only_forEachM {A} (Q : effect → Prop) (xs : list A) (f : A → M unit) :
  (∀ x, emits_only Q (f x)) → emits_only Q (forEachM xs f).
Proof.
  intros Hf. induction xs as [|x xs IH]; simpl.
  - apply emits_only_mret.
  - apply emits_only_bind; [apply Hf | intros _; apply IH].
Qed.

(** *** What the handlers compute *)

Lemma fetchData_run params s :
  fetchData params s =
  let q := fetchData_getParams params (filterParams s) (serarchKeyword s) in
  (tt, upd_articleRequests (λ rs, rs ++ [q]) (upd_loading loading_start s),
   [GetArticles q]).
Proof. reflexivity. Qed.

Lemma trigger_run s :
  trigger flush s =
  match flush with
  | WatchSync => fetchData None s
  | WatchDeferred => (tt, upd_watchQueued (λ _, true) s, [])
  end.
Proof. unfold trigger. by destruct flush. Qed.

Lemma filterParams_set_run k v s :
  filterParams_set flush k v s =
  let s1 := upd_filterParams (λ _, <[k := v]> (filterParams s)) s in
  if decide (filterParams s !! k = Some v) then (tt, s1, [])
  else trigger flush s1.
Proof.
  unfold filterParams_set. unfold_monad. simpl.
  case_decide; [done |].
  by destruct (trigger flush _) as [[[] ?] ?].
Qed.

Lemma refreshData_run s :
  refreshData s =
  fetchData
    (Some (page_params (optional current_page (pagination (article s)))
                       (optional per_page (pagination (article s))))) s.
Proof. reflexivity. Qed.

Lemma flush_watch_run s :
  flush_watch s =
  if watchQueued s then fetchData None (upd_watchQueued (λ _, false) s)
  else (tt, s, []).
Proof. unfold flush_watch. unfold_monad. simpl. by destruct (watchQueued s). Qed.

Lemma step_run e s :
  step SortTypeWithHot_Desc flush e s =
  let r := handle SortTypeWithHot_Desc flush e s in
  let r' := flush_watch r.1.2 in
  (r'.1.2, r.2 ++ r'.2).
Proof. reflexivity. Qed.

(** *** Frame rules: which handlers leave which part of the state alone *)

Lemma preserves_fetchData (P : State → Prop) params :
  (∀ s f, P s → P (upd_loading f s)) →
  (∀ s f, P s → P (upd_articleRequests f s)) →
  preserves P (fetchData params).
Proof. intros H1 H2 s Hs. rewrite fetchData_run. simpl. by apply H2, H1. Qed.

(** The handlers built on [fetchData] keep whatever [fetchData] and the
    writes of their own keep. *)
Lemma preserves_trigger_with (P : State → Prop) :
  (∀ params, preserves P (fetchData params)) →
  (∀ s, P s → P (upd_watchQueued (λ _, true) s)) →
  preserves P (trigger flush).
Proof.
  intros Hfetch Hqueue s Hs. rewrite trigger_run. destruct flush.
  - by apply Hfetch.
  - simpl. by apply Hqueue.
Qed.

Lemma preserves_filterParams_set_with (P : State → Prop) k v :
  (∀ params, preserves P (fetchData params)) →
  (∀ s, P s → P (upd_watchQueued (λ _, true) s)) →
  (∀ s, P s → P (upd_filterParams (λ _, <[k := v]> (filterParams s)) s)) →
  preserves P (filterParams_set flush k v).
Proof.
  intros Hfetch Hqueue Hset s Hs. rewrite filterParams_set_run. simpl.
  case_decide; simpl; [by apply Hset |].
  apply preserves_trigger_with; auto.
Qed.

Lemma preserves_resetParamsAndRefresh_with (P : State → Prop) :
  (∀ params, preserves P (fetchData params)) →
  (∀ s, P s → P (upd_watchQueued (λ _, true) s)) →
  (∀ s, P s → P (upd_serarchKeyword (λ _, EmptyString) s)) →
  (∀ s k v, P s → k ∈ FILTER_KEYS →
            P (upd_filterParams (λ _, <[k := v]> (filterParams s)) s)) →
  preserves P (resetParamsAndRefresh SortTypeWithHot_Desc flush).
Proof.
  intros Hfetch Hqueue Hkw Hset. unfold resetParamsAndRefresh, batchedUpdates.
  apply preserves_bind; [apply preserves_modify; auto |]. intros _.
  apply preserves_bind; [apply preserves_gets |]. intros fp.
  case_decide.
  - by apply Hfetch.
  - apply preserves_forEachM. intros k Hk.
    apply preserves_filterParams_set_with; auto.
    intros s Hs. apply Hset; [done |].
    clear -Hk. simpl in Hk. unfold FILTER_KEYS.
    rewrite elem_of_list_to_set. rewrite !elem_of_cons in *. tauto.
Qed.

Lemma preserves_flush_watch_with (P : State → Prop) :
  (∀ params, preserves P (fetchData params)) →
  (∀ s, P s → P (upd_watchQueued (λ _, false) s)) →
  preserves P flush_watch.
Proof.
  intros Hfetch Hqueue s Hs. rewrite flush_watch_run.
  destruct (watchQueued s); [| done].
  apply Hfetch; auto.
Qed.

(** The same for a property that does not look at the loading flag, the
    pending list requests or the watcher queue. *)
Lemma preserves_trigger (P : State → Prop) :
  (∀ s f, P s → P (upd_loading f s)) →
  (∀ s f, P s → P (upd_articleRequests f s)) →
  (∀ s f, P s → P (upd_watchQueued f s)) →
  preserves P (trigger flush).
Proof.
  intros H1 H2 H3. apply preserves_trigger_with; [| by auto].
  intros params. by apply preserves_fetchData.
Qed.

Lemma preserves_filterParams_set (P : State → Prop) k v :
  (∀ s f, P s → P (upd_loading f s)) →
  (∀ s f, P s → P (upd_articleRequests f s)) →
  (∀ s f, P s → P (upd_watchQueued f s)) →
  (∀ s, P s → P (upd_filterParams (λ _, <[k := v]> (filterParams s)) s)) →
  preserves P (filterParams_set flush k v).
Proof.
  intros H1 H2 H3 H4. apply preserves_filterParams_set_with; [| by auto..].
  intros params. by apply preserves_fetchData.
Qed.

Lemma preserves_resetParamsAndRefresh (P : State → Prop) :
  (∀ s f, P s → P (upd_loading f s)) →
  (∀ s f, P s → P (upd_articleRequests f s)) →
  (∀ s f, P s → P (upd_watchQueued f s)) →
  (∀ s f, P s → P (upd_serarchKeyword f s)) →
  (∀ s k v, P s → k ∈ FILTER_KEYS →
            P (upd_filterParams (λ _, <[k := v]> (filterParams s)) s)) →
  preserves P (resetParamsAndRefresh SortTypeWithHot_Desc flush).
Proof.
  intros H1 H2 H3 H4 H5.
  apply preserves_resetParamsAndRefresh_with; [| by auto..].
  intros params. by apply preserves_fetchData.
Qed.

Lemma preserves_flush_watch (P : State → Prop) :
  (∀ s f, P s → P (upd_loading f s)) →
  (∀ s f, P s → P (upd_articleRequests f s)) →
  (∀ s f, P s → P (upd_watchQueued f s)) →
  preserves P flush_watch.
Proof.
  intros H1 H2 H3. apply preserves_flush_watch_with; [| by auto].
  intros params. by apply preserves_fetchData.
Qed.

Lemma field_key_in_FILTER_KEYS (f : FilterField) : field_key f ∈ FILTER_KEYS.
Proof.
  unfold FILTER_KEYS. rewrite elem_of_list_to_set, !elem_of_cons.
  destruct f; simpl; tauto.
Qed.

(** *** Which handlers emit only list requests *)

Lemma emits_only_fetchData (Q : effect → Prop) params :
  (∀ q, Q (GetArticles q)) → emits_only Q (fetchData params).
Proof. intros H s. rewrite fetchData_run. simpl. by repeat constructor. Qed.

Lemma emits_only_trigger (Q : effect → Prop) :
  (∀ q, Q (GetArticles q)) → emits_only Q (trigger flush).
Proof.
  intros H s. rewrite trigger_run. destruct flush.
  - by apply emits_only_fetchData.
  - constructor.
Qed.

Lemma emits_only_filterParams_set (Q : effect → Prop) k v :
  (∀ q, Q (GetArticles q)) → emits_only Q (filterParams_set flush k v).
Proof.
  intros H s. rewrite filterParams_set_run. simpl.
  case_decide; [constructor | by apply emits_only_trigger].
Qed.

Lemma emits_only_resetParamsAndRefresh (Q : effect → Prop) :
  (∀ q, Q (GetArticles q)) →
  emits_only Q (resetParamsAndRefresh SortTypeWithHot_Desc flush).
Proof.
  intros H. unfold resetParamsAndRefresh, batchedUpdates.
  apply emits_only_bind; [apply emits_only_modify |]. intros _.
  apply emits_only_bind; [apply emits_only_gets |]. intros fp.
  case_decide.
  - by apply emits_only_fetchData.
  - apply emits_only_forEachM. intros k.
    by apply emits_only_filterParams_set.
Qed.

Lemma emits_only_flush_watch (Q : effect → Prop) :
  (∀ q, Q (GetArticles q)) → emits_only Q flush_watch.
Proof.
  intros H s. rewrite flush_watch_run.
  destruct (watchQueued s); [| constructor].
  by apply emits_only_fetchData.
Qed.

(** *** Between two events no watcher job is left queued *)

Lemma step_watchQueued e s :
  watchQueued (step SortTypeWithHot_Desc flush e s).1 = false.
Proof.
  rewrite step_run. cbv zeta. rewrite flush_watch_run. cbn [fst].
  destruct (watchQueued (handle _ _ e s).1.2) eqn:E; [reflexivity | exact E].
Qed.

End Handlers.

(** *** Automation for the frame and emission rules *)

Ltac frame_step :=
  first
    [ apply preserves_mret
    | apply preserves_gets
    | apply preserves_emit
    | apply preserves_bind; [| intros ?]
    | apply preserves_modify; intros ? H; exact H
    | apply preserves_fetchData; intros ? ? H; exact H
    | match goal with
      | |- preserves _ (match ?x with _ => _ end) => destruct x
      end ].

Ltac frame :=
  unfold onMounted, fetchCategories, fetchTags, fetchCategories_then,
    fetchTags_then, fetchData_then, handleSelect, handleStateChange,
    handleStateChange_onOk, handleStateChange_then, refreshData,
    DropdownMenu_click, batchedUpdates;
  repeat frame_step.

Ltac emits_step :=
  first
    [ apply emits_only_mret
    | apply emits_only_gets
    | apply emits_only_modify
    | apply emits_only_emit; exact I
    | apply emits_only_bind; [| intros ?]
    | apply emits_only_fetchData; intros ?; exact I
    | match goal with
      | |- emits_only _ (match ?x with _ => _ end) => destruct x
      end ].

Ltac emits :=
  unfold onMounted, fetchCategories, fetchTags, fetchCategories_then,
    fetchTags_then, fetchData_then, handleSelect, batchedUpdates;
  repeat emits_step.

(** ** Runs and reachable states *)

Arguments fetchData_getParams : simpl never.
Arguments page_params : simpl never.
Arguments DEFAULT_FILTER_PARAMS : simpl never.

Section Runs.

Variable SortTypeWithHot_Desc : Js.value.
Variable flush : WatchFlush.
Context {use_loading : UseLoading}.

Local Abbreviation step := (step SortTypeWithHot_Desc flush).
Local Abbreviation run := (run SortTypeWithHot_Desc flush).
Local Abbreviation handle := (handle SortTypeWithHot_Desc flush).
Local Abbreviation init := (init SortTypeWithHot_Desc).
Local Abbreviation reachable := (reachable SortTypeWithHot_Desc flush).

Implicit Types (s : State) (e : event) (es : list event).

Lemma run_app es1 es2 s :
  run (es1 ++ es2) s =
  let r1 := run es1 s in
  let r2 := run es2 r1.1 in
  (r2.1, r1.2 ++ r2.2).
Proof.
  revert s. induction es1 as [|e es1 IH]; intros s; simpl.
  - by destruct (run es2 s).
  - by rewrite IH.
Qed.

Lemma run_snoc es e s :
  run (es ++ [e]) s =
  let r := run es s in
  let r' := step e r.1 in
  (r'.1, r.2 ++ [(e, r'.2)]).
Proof. by rewrite run_app. Qed.

Lemma reachable_init : reachable init.
Proof. by exists []. Qed.

Lemma reachable_step s e : reachable s → reachable (step e s).1.
Proof. intros [es <-]. exists (es ++ [e]). by rewrite run_snoc. Qed.

Lemma reachable_run es : reachable (run es init).1.
Proof. by exists es. Qed.

Lemma reachable_invariant (P : State → Prop) :
  P init →
  (∀ s e, reachable s → P s → P (step e s).1) →
  ∀ s, reachable s → P s.
Proof.
  intros Hinit Hstep s [es <-].
  induction es as [|e es IH] using rev_ind; [exact Hinit |].
  rewrite run_snoc. simpl. apply Hstep; [apply reachable_run | exact IH].
Qed.

Lemma reachable_watchQueued s : reachable s → watchQueued s = false.
Proof.
  revert s. apply (reachable_invariant (λ s, watchQueued s = false));
    [reflexivity |].
  intros s' e _ _. apply step_watchQueued.
Qed.

(** *** The key set of the filter params *)

Lemma dom_DEFAULT_FILTER_PARAMS :
  dom (DEFAULT_FILTER_PARAMS SortTypeWithHot_Desc) = FILTER_KEYS.
Proof.
  unfold DEFAULT_FILTER_PARAMS, FILTER_KEYS. rewrite dom_list_to_map_L.
  apply set_eq. intros k.
  rewrite !elem_of_list_to_set. simpl. rewrite !elem_of_cons. tauto.
Qed.

Lemma dom_insert_filter_key (fp : Js.object) k v :
  dom fp = FILTER_KEYS → k ∈ FILTER_KEYS → dom (<[k := v]> fp) = FILTER_KEYS.
Proof.
  intros Hd Hk. rewrite dom_insert_L, Hd.
  apply set_eq. intros j. rewrite elem_of_union, elem_of_singleton.
  split; [intros [->|?]; done | by right].
Qed.

Lemma handle_preserves_keys e :
  preserves (λ s, dom (filterParams s) = FILTER_KEYS) (handle e).
Proof.
  destruct e; simpl; try (frame; fail).
  - apply preserves_filterParams_set; try (intros ? ? H; exact H).
    intros s Hs. simpl. apply dom_insert_filter_key; [done |].
    apply field_key_in_FILTER_KEYS.
  - apply preserves_resetParamsAndRefresh; try (intros ? ? H; exact H).
    intros s k v Hs Hk. simpl. by apply dom_insert_filter_key.
Qed.

Lemma step_preserves_keys e s :
  dom (filterParams s) = FILTER_KEYS →
  dom (filterParams (step e s).1) = FILTER_KEYS.
Proof.
  intros Hs. rewrite step_run. cbv zeta. cbn [fst].
  apply (preserves_flush_watch (λ s, dom (filterParams s) = FILTER_KEYS));
    try (intros ? ? H; exact H).
  by apply handle_preserves_keys.
Qed.

Lemma reachable_keys s : reachable s → dom (filterParams s) = FILTER_KEYS.
Proof.
  revert s.
  apply (reachable_invariant (λ s, dom (filterParams s) = FILTER_KEYS));
    [apply dom_DEFAULT_FILTER_PARAMS |].
  intros s' e _. apply step_preserves_keys.
Qed.

(** *** What a step does, event by event *)

Lemma handle_keeps_watchQueued e :
  (∀ f v, e ≠ FilterChange f v) → e ≠ ResetClick →
  preserves (λ s, watchQueued s = false) (handle e).
Proof.
  intros H1 H2. destruct e; simpl; try (frame; fail).
  - by destruct (H1 f v).
  - by destruct H2.
Qed.

Lemma step_plain e s :
  (∀ f v, e ≠ FilterChange f v) → e ≠ ResetClick →
  watchQueued s = false →
  step e s = ((handle e s).1.2, (handle e s).2).
Proof.
  intros H1 H2 Hq. rewrite step_run. cbv zeta. rewrite flush_watch_run.
  rewrite (handle_keeps_watchQueued e H1 H2 s Hq). simpl.
  by rewrite app_nil_r.
Qed.

Lemma step_ModalOk i s :
  watchQueued s = false →
  step (ModalOk i) s =
  match modals s !! i with
  | Some (ids, st) =>
      (upd_patchRequests (λ ps, ps ++ [(ids, st)]) (upd_modals (delete i) s),
       [PatchArticlesState ids st])
  | None => (s, [])
  end.
Proof.
  intros Hq. rewrite step_plain by done. simpl. unfold_monad. simpl.
  by destruct (modals s !! i) as [[ids st]|].
Qed.

Lemma step_ModalCancel i s :
  watchQueued s = false →
  step (ModalCancel i) s = (upd_modals (delete i) s, []).
Proof. intros Hq. by rewrite step_plain. Qed.

Lemma step_BulkMenuClick i s :
  watchQueued s = false →
  step (BulkMenuClick i) s =
  if bulk_disabled s then (s, [])
  else match bulkOptions !! i with
       | Some o =>
           (upd_modals (λ ms, ms ++ [(selectedIds s, target o)]) s,
            [ModalConfirm (selectedIds s) (target o)])
       | None => (s, [])
       end.
Proof.
  intros Hq. rewrite step_plain by done. simpl. unfold_monad. simpl.
  destruct (bulk_disabled s); [done |].
  by destruct (bulkOptions !! i).
Qed.

Lemma step_UpdateState a st s :
  watchQueued s = false →
  step (UpdateState a st) s =
  (upd_modals (λ ms, ms ++ [([_id a], st)]) s, [ModalConfirm [_id a] st]).
Proof. intros Hq. by rewrite step_plain. Qed.

Lemma step_PatchSettled i ok s :
  watchQueued s = false →
  step (PatchSettled i ok) s =
  match patchRequests s !! i with
  | Some p =>
      let s1 := upd_patchRequests (delete i) s in
      if ok then ((refreshData s1).1.2, (refreshData s1).2)
      else (upd_modals (λ ms, ms ++ [p]) s1, [])
  | None => (s, [])
  end.
Proof.
  intros Hq. rewrite step_plain by done. simpl. unfold_monad. simpl.
  destruct (patchRequests s !! i) as [p|]; [| done].
  by destruct ok.
Qed.

Lemma step_ArticlesSettled i result s :
  watchQueued s = false →
  step (ArticlesSettled i result) s =
  match articleRequests s !! i with
  | Some _ =>
      let s1 := upd_loading loading_stop (upd_articleRequests (delete i) s) in
      match result with
      | Some r => (upd_article (λ _, r) s1, [ScrollTo])
      | None => (s1, [])
      end
  | None => (s, [])
  end.
Proof.
  intros Hq. rewrite step_plain by done. simpl. unfold_monad. simpl.
  destruct (articleRequests s !! i); [| done].
  destruct result as [[d p]|]; reflexivity.
Qed.

Lemma step_FilterChange f v s :
  watchQueued s = false →
  step (FilterChange f v) s =
  let s1 := upd_filterParams (λ _, <[field_key f := v]> (filterParams s)) s in
  if decide (filterParams s !! field_key f = Some v) then (s1, [])
  else ((fetchData None s1).1.2, (fetchData None s1).2).
Proof.
  intros Hq. rewrite step_run. cbv zeta. simpl handle.
  rewrite filterParams_set_run. cbv zeta.
  case_decide.
  - rewrite flush_watch_run. simpl. by rewrite Hq.
  - rewrite trigger_run. destruct flush.
    + rewrite flush_watch_run. simpl. by rewrite Hq.
    + rewrite flush_watch_run. simpl. destruct s. simpl in *. by subst.
Qed.

End Runs.

(** ** Traces *)

Section Traces.

Variable SortTypeWithHot_Desc : Js.value.
Variable flush : WatchFlush.
Context {use_loading : UseLoading}.

Local Abbreviation step := (step SortTypeWithHot_Desc flush).
Local Abbreviation run := (run SortTypeWithHot_Desc flush).
Local Abbreviation handle := (handle SortTypeWithHot_Desc flush).
Local Abbreviation init := (init SortTypeWithHot_Desc).

Implicit Types (s : State) (e : event) (es : list event) (tr : trace)
  (n m : nat).

Lemma confirm_opened_before_mono tr tr' n (n' : nat) ids st :
  n ≤ n' →
  confirm_opened_before tr n ids st →
  confirm_opened_before (tr ++ tr') n' ids st.
Proof.
  intros Hn (m & e & effs & Hm & Hlook & He & Heffs).
  exists m, e, effs. split; [lia |]. split; [| done].
  rewrite lookup_app_l; [done |]. by apply lookup_lt_Some in Hlook.
Qed.

Lemma patch_called_before_mono tr tr' n (n' : nat) ids st :
  n ≤ n' →
  patch_called_before tr n ids st →
  patch_called_before (tr ++ tr') n' ids st.
Proof.
  intros Hn (m & i & Hm & Hlook).
  exists m, i. split; [lia |].
  rewrite lookup_app_l; [done |]. by apply lookup_lt_Some in Hlook.
Qed.

Lemma entry_ok_mono tr tr' n e effs :
  entry_ok tr n e effs → entry_ok (tr ++ tr') n e effs.
Proof.
  destruct e; simpl; try done.
  - intros [?|(ids & st & ? & H)]; [by left | right].
    exists ids, st. split; [done |].
    by apply (confirm_opened_before_mono _ _ n).
  - intros [?|(? & q & ids & st & ? & H)]; [by left | right].
    split; [done |]. exists q, ids, st. split; [done |].
    by apply (patch_called_before_mono _ _ n).
Qed.

Lemma pending_ok_mono tr x ms ps :
  pending_ok tr ms ps → pending_ok (tr ++ [x]) ms ps.
Proof.
  intros [Hm Hp].
  assert (length tr ≤ length (tr ++ [x])) by (rewrite length_app; lia).
  split.
  - intros ids st Hin.
    apply (confirm_opened_before_mono _ _ (length tr)); auto.
  - intros ids st Hin. destruct (Hp ids st Hin). split.
    + apply (confirm_opened_before_mono _ _ (length tr)); auto.
    + apply (patch_called_before_mono _ _ (length tr)); auto.
Qed.

(** The other events leave the dialogs and the patch promises alone and
    only read. *)
Lemma handle_frame_dialogs e ms ps :
  touches_dialogs e = false →
  preserves (λ s, modals s = ms ∧ patchRequests s = ps) (handle e).
Proof.
  intros He. destruct e; try discriminate He; simpl; try (frame; fail).
  - apply preserves_filterParams_set; try (intros ? ? H; exact H).
    intros ? H; exact H.
  - apply preserves_resetParamsAndRefresh; try (intros ? ? H; exact H).
    intros ? ? ? H _; exact H.
Qed.

Lemma handle_emits_queries e :
  touches_dialogs e = false → emits_only is_query (handle e).
Proof.
  intros He. destruct e; try discriminate He; simpl; try (emits; fail).
  - apply emits_only_filterParams_set. intros ?; exact I.
  - apply emits_only_resetParamsAndRefresh. intros ?; exact I.
Qed.

Lemma step_frame_dialogs e s :
  touches_dialogs e = false →
  modals (step e s).1 = modals s ∧
  patchRequests (step e s).1 = patchRequests s ∧
  Forall is_query (step e s).2.
Proof.
  intros He. rewrite step_run. cbv zeta. cbn [fst snd].
  pose proof (handle_frame_dialogs e (modals s) (patchRequests s) He s
                (conj eq_refl eq_refl)) as Hh.
  pose proof (preserves_flush_watch
                (λ s', modals s' = modals s ∧ patchRequests s' = patchRequests s))
    as Hf.
  destruct (Hf (λ _ _ H, H) (λ _ _ H, H) (λ _ _ H, H) _ Hh) as [H1 H2].
  split; [exact H1 |]. split; [exact H2 |].
  apply Forall_app. split.
  - by apply handle_emits_queries.
  - apply emits_only_flush_watch. intros ?; exact I.
Qed.

Lemma bulk_disabled_false s : bulk_disabled s = false → selectedIds s ≠ [].
Proof. unfold bulk_disabled. by destruct (selectedIds s). Qed.

Lemma confirm_opened_at_end tr e ids st :
  is_state_change_request e →
  let tr' := tr ++ [(e, [ModalConfirm ids st])] in
  confirm_opened_before tr' (length tr') ids st.
Proof.
  intros He. exists (length tr), e, [ModalConfirm ids st].
  split; [rewrite length_app; simpl; lia |].
  split; [| done].
  rewrite lookup_app_r by lia. by rewrite Nat.sub_diag.
Qed.

Lemma patch_called_at_end tr i ids st :
  let tr' := tr ++ [(ModalOk i, [PatchArticlesState ids st])] in
  patch_called_before tr' (length tr') ids st.
Proof.
  exists (length tr), i.
  split; [rewrite length_app; simpl; lia |].
  rewrite lookup_app_r by lia. by rewrite Nat.sub_diag.
Qed.

(** One step extends a trace that accounts for the pending dialogs and
    patch promises into one that still does, by an entry the trace
    allows. *)
Lemma step_trace_ok s tr e :
  watchQueued s = false →
  pending_ok tr (modals s) (patchRequests s) →
  entry_ok tr (length tr) e (step e s).2 ∧
  pending_ok (tr ++ [(e, (step e s).2)])
             (modals (step e s).1) (patchRequests (step e s).1).
Proof.
  intros Hq Hp.
  destruct (touches_dialogs e) eqn:Ht.
  2:{ destruct (step_frame_dialogs e s Ht) as (Hm & Hps & Heffs).
      rewrite Hm, Hps. split; [| by apply pending_ok_mono].
      destruct e; try discriminate Ht; exact Heffs. }
  destruct e; try discriminate Ht; clear Ht.
  - (* the bulk menu *)
    rewrite step_BulkMenuClick by done.
    destruct (bulk_disabled s) eqn:Hd; simpl.
    { split; [by left | by apply pending_ok_mono]. }
    destruct (bulkOptions !! i) as [o|] eqn:Ho; simpl.
    2:{ split; [by left | by apply pending_ok_mono]. }
    split.
    + right. exists (selectedIds s), o.
      split; [by apply bulk_disabled_false | done].
    + destruct (pending_ok_mono tr (BulkMenuClick i,
                  [ModalConfirm (selectedIds s) (target o)]) _ _ Hp) as [H1 H2].
      split; [| exact H2].
      intros ids st Hin. apply elem_of_app in Hin as [Hin|Hin]; [by apply H1 |].
      apply list_elem_of_singleton in Hin as [= -> ->].
      by apply confirm_opened_at_end.
  - (* the row action *)
    rewrite step_UpdateState by done. simpl.
    split; [done |].
    destruct (pending_ok_mono tr (UpdateState a state,
                [ModalConfirm [_id a] state]) _ _ Hp) as [H1 H2].
    split; [| exact H2].
    intros ids st Hin. apply elem_of_app in Hin as [Hin|Hin]; [by apply H1 |].
    apply list_elem_of_singleton in Hin as [= -> ->].
    by apply confirm_opened_at_end.
  - (* OK *)
    rewrite step_ModalOk by done.
    destruct (modals s !! i) as [[ids st]|] eqn:Hi; simpl.
    2:{ split; [by left | by apply pending_ok_mono]. }
    assert (confirm_opened_before tr (length tr) ids st) as Hc.
    { apply (proj1 Hp). by apply list_elem_of_lookup_2 in Hi. }
    split; [right; by exists ids, st |].
    destruct (pending_ok_mono tr (ModalOk i, [PatchArticlesState ids st])
                _ _ Hp) as [H1 H2].
    split.
    + intros ids' st' Hin. apply H1. by apply list_elem_of_delete_inv in Hin.
    + intros ids' st' Hin. apply elem_of_app in Hin as [Hin|Hin]; [by apply H2 |].
      apply list_elem_of_singleton in Hin as [= -> ->]. split.
      * apply (confirm_opened_before_mono _ _ (length tr)); [| done].
        rewrite length_app. lia.
      * by apply patch_called_at_end.
  - (* Cancel *)
    rewrite step_ModalCancel by done. simpl.
    split; [constructor |].
    destruct (pending_ok_mono tr (ModalCancel i, []) _ _ Hp) as [H1 H2].
    split; [| exact H2].
    intros ids st Hin. apply H1. by apply list_elem_of_delete_inv in Hin.
  - (* the patch promise settles *)
    rewrite step_PatchSettled by done.
    destruct (patchRequests s !! i) as [[ids st]|] eqn:Hi; simpl.
    2:{ split; [by left | by apply pending_ok_mono]. }
    destruct (proj2 Hp ids st) as [Hc Hcalled].
    { by apply list_elem_of_lookup_2 in Hi. }
    destruct ok; simpl.
    + split.
      * right. split; [done |]. by eexists _, ids, st.
      * destruct (pending_ok_mono tr
                    (PatchSettled i true,
                     (refreshData (upd_patchRequests (delete i) s)).2)
                    _ _ Hp) as [H1 H2].
        split; [exact H1 |].
        intros ids' st' Hin. apply H2. by apply list_elem_of_delete_inv in Hin.
    + split; [by left |].
      destruct (pending_ok_mono tr (PatchSettled i false, []) _ _ Hp)
        as [H1 H2].
      split.
      * intros ids' st' Hin.
        apply elem_of_app in Hin as [Hin|Hin]; [by apply H1 |].
        apply list_elem_of_singleton in Hin as [= -> ->].
        apply (confirm_opened_before_mono _ _ (length tr)); [| done].
        rewrite length_app. lia.
      * intros ids' st' Hin. apply H2. by apply list_elem_of_delete_inv in Hin.
Qed.

(** Every run accounts for its pending dialogs and patch promises, and
    every entry of its trace is one the trace allows. *)
Lemma run_trace_ok es :
  let r := run es init in
  pending_ok r.2 (modals r.1) (patchRequests r.1) ∧
  ∀ n e effs, r.2 !! n = Some (e, effs) → entry_ok r.2 n e effs.
Proof.
  induction es as [|e es IH] using rev_ind.
  - simpl. split.
    + split; intros ids st Hin; by apply elem_of_nil in Hin.
    + intros n e effs Hn. by rewrite lookup_nil in Hn.
  - rewrite run_snoc. cbv zeta in *. cbn [fst snd].
    destruct IH as [Hp Hentries].
    destruct (step_trace_ok (run es init).1 (run es init).2 e) as [He Hp'];
      [apply (reachable_watchQueued SortTypeWithHot_Desc flush), reachable_run
      | exact Hp |].
    split; [exact Hp' |].
    intros n e' effs' Hn.
    destruct (decide (n < length (run es init).2)) as [Hlt|Hge].
    + rewrite lookup_app_l in Hn by done.
      by apply entry_ok_mono, Hentries.
    + rewrite lookup_app_r in Hn by lia.
      destruct (n - length (run es init).2) as [|k] eqn:Hk; [| done].
      simpl in Hn. injection Hn as <- <-.
      replace n with (length (run es init).2) by lia.
      by apply entry_ok_mono.
Qed.

End Traces.

(** ** Reset and the scheduling of the watcher *)

Section Reset.

Variable SortTypeWithHot_Desc : Js.value.
Context {use_loading : UseLoading}.

Local Abbreviation DEFAULTS := (DEFAULT_FILTER_PARAMS SortTypeWithHot_Desc).

Implicit Types (s : State) (k : string) (ks : list string) (fp : Js.object).

(** The assignments of the reset loop, as one update of the object. *)
Lemma forEachM_set_filterParams flush ks (D : Js.object) s :
  filterParams
    (forEachM ks (λ k, filterParams_set flush k (Js.get D k)) s).1.2 =
  foldl (λ m k, <[k := Js.get D k]> m) (filterParams s) ks.
Proof.
  revert s. induction ks as [|k ks IH]; intros s; [done |].
  cbn [forEachM foldl]. unfold mbind, M_bind. cbv beta zeta. cbn [fst snd].
  rewrite IH. f_equal.
  rewrite filterParams_set_run. cbv zeta.
  case_decide; [done |]. rewrite trigger_run. by destruct flush.
Qed.

(** Restoring all seven defaults gives the default object. *)
Lemma restore_defaults fp :
  dom fp = FILTER_KEYS →
  foldl (λ m k, <[k := Js.get DEFAULTS k]> m) fp
        ((DEFAULT_FILTER_PARAMS_literal SortTypeWithHot_Desc).*1) = DEFAULTS.
Proof.
  intros Hd. apply map_eq. intros j.
  unfold DEFAULT_FILTER_PARAMS_literal. cbn [fmap list_fmap fst foldl].
  destruct (decide (j ∈ FILTER_KEYS)) as [Hj|Hj].
  - unfold FILTER_KEYS in Hj.
    rewrite elem_of_list_to_set, !elem_of_cons, elem_of_nil in Hj.
    destruct Hj as [->|[->|[->|[->|[->|[->|[->|[]]]]]]]];
      repeat (rewrite lookup_insert_ne by done);
      rewrite lookup_insert_eq; vm_compute; reflexivity.
  - rewrite (not_filter_key DEFAULTS j);
      [| apply dom_DEFAULT_FILTER_PARAMS | done].
    rewrite !lookup_insert_ne; [by apply not_filter_key | ..];
      intros <-; apply Hj; unfold FILTER_KEYS;
      rewrite elem_of_list_to_set, !elem_of_cons; tauto.
Qed.

Lemma filterParams_set_deferred_run k v s :
  filterParams_set WatchDeferred k v s =
  let s1 := upd_filterParams (λ _, <[k := v]> (filterParams s)) s in
  (tt,
   if decide (filterParams s !! k = Some v) then s1
   else upd_watchQueued (λ _, true) s1,
   []).
Proof. rewrite filterParams_set_run. cbv zeta. by case_decide. Qed.

(** With a deferred watcher the loop emits nothing; it leaves the job
    queued unless no assignment changed anything. *)
Lemma forEachM_set_deferred ks (D : Js.object) s :
  let r := forEachM ks (λ k, filterParams_set WatchDeferred k (Js.get D k)) s in
  r.2 = [] ∧
  serarchKeyword r.1.2 = serarchKeyword s ∧
  (watchQueued s = true → watchQueued r.1.2 = true) ∧
  (watchQueued r.1.2 = true ∨ filterParams r.1.2 = filterParams s).
Proof.
  revert s. induction ks as [|k ks IH]; intros s; cbn [forEachM].
  - repeat split; auto.
  - unfold mbind, M_bind. cbv beta zeta.
    rewrite filterParams_set_deferred_run. cbv zeta. cbn [fst snd].
    match goal with
    | |- context [forEachM ks _ ?s1] => destruct (IH s1) as (H1 & H2 & H3 & H4)
    end.
    rewrite H1, H2. split; [done |].
    case_decide as Hk; simpl in *.
    + split; [done |]. split; [exact H3 |].
      destruct H4 as [H4|H4]; [by left | right].
      rewrite H4. by apply insert_id.
    + split; [done |]. split; [intros _; by apply H3 |].
      left. by apply H3.
Qed.

Lemma resetParamsAndRefresh_run flush s :
  resetParamsAndRefresh SortTypeWithHot_Desc flush s =
  let s0 := upd_serarchKeyword (λ _, EmptyString) s in
  if decide (filterParams s = DEFAULTS) then fetchData None s0
  else
    forEachM ((DEFAULT_FILTER_PARAMS_literal SortTypeWithHot_Desc).*1)
      (λ k, filterParams_set flush k (Js.get DEFAULTS k)) s0.
Proof.
  unfold resetParamsAndRefresh, batchedUpdates. unfold_monad.
  cbv beta zeta. cbn [fst snd].
  change (filterParams (upd_serarchKeyword _ s)) with (filterParams s).
  case_decide; [reflexivity |].
  by destruct (forEachM _ _ _) as [[[] ?] ?].
Qed.

Lemma step_ResetClick flush s :
  step SortTypeWithHot_Desc flush ResetClick s =
  let r := resetParamsAndRefresh SortTypeWithHot_Desc flush s in
  let r' := flush_watch r.1.2 in
  (r'.1.2, r.2 ++ r'.2).
Proof. reflexivity. Qed.

(** With a deferred watcher a reset in a reachable state is followed by
    exactly one list request, on the defaults and without keyword. *)
Lemma reset_deferred_one_fetch s :
  reachable SortTypeWithHot_Desc WatchDeferred s →
  let r := step SortTypeWithHot_Desc WatchDeferred ResetClick s in
  r.2 = [GetArticles (fetchData_getParams None DEFAULTS EmptyString)] ∧
  filterParams r.1 = DEFAULTS ∧
  serarchKeyword r.1 = EmptyString.
Proof.
  intros Hs. cbv zeta.
  pose proof (reachable_watchQueued _ _ s Hs) as Hq.
  pose proof (reachable_keys _ _ s Hs) as Hd.
  rewrite step_ResetClick, resetParamsAndRefresh_run. cbv zeta.
  destruct (decide (filterParams s = DEFAULTS)) as [He|Hne].
  - rewrite fetchData_run. cbv zeta. cbn [fst snd].
    rewrite flush_watch_run.
    change (watchQueued _) with (watchQueued s). rewrite Hq.
    cbn [fst snd filterParams serarchKeyword upd_serarchKeyword
         upd_articleRequests upd_loading].
    by rewrite He.
  - destruct (forEachM_set_deferred
                ((DEFAULT_FILTER_PARAMS_literal SortTypeWithHot_Desc).*1)
                DEFAULTS (upd_serarchKeyword (λ _, EmptyString) s))
      as (H1 & H2 & _ & H4).
    pose proof (forEachM_set_filterParams WatchDeferred
                  ((DEFAULT_FILTER_PARAMS_literal SortTypeWithHot_Desc).*1)
                  DEFAULTS (upd_serarchKeyword (λ _, EmptyString) s)) as H5.
    rewrite restore_defaults in H5 by exact Hd.
    revert H1 H2 H4 H5.
    generalize (forEachM
                  ((DEFAULT_FILTER_PARAMS_literal SortTypeWithHot_Desc).*1)
                  (λ k, filterParams_set WatchDeferred k (Js.get DEFAULTS k))
                  (upd_serarchKeyword (λ _, EmptyString) s)).
    intros [[[] s1] effs]. cbn [fst snd]. intros -> H2 H4 H5.
    destruct H4 as [H4|H4]; [| by rewrite H5 in H4].
    rewrite flush_watch_run, H4, fetchData_run. cbv zeta.
    cbn [fst snd filterParams serarchKeyword upd_watchQueued
         upd_articleRequests upd_loading app].
    rewrite H5, H2. done.
Qed.

Lemma filterParams_set_sync_run k v s :
  filterParams_set WatchSync k v s =
  let s1 := upd_filterParams (λ _, <[k := v]> (filterParams s)) s in
  if decide (filterParams s !! k = Some v) then (tt, s1, [])
  else fetchData None s1.
Proof. by rewrite filterParams_set_run. Qed.

(** With a watcher that runs inside the assignment the loop emits one
    list request per assignment that changes a value, the last of them
    on the object the loop leaves. *)
Lemma forEachM_set_sync ks (D : Js.object) s :
  let r := forEachM ks (λ k, filterParams_set WatchSync k (Js.get D k)) s in
  serarchKeyword r.1.2 = serarchKeyword s ∧
  watchQueued r.1.2 = watchQueued s ∧
  ((r.2 = [] ∧ filterParams r.1.2 = filterParams s) ∨
   ∃ pre,
     r.2 = pre ++ [GetArticles
                     (fetchData_getParams None (filterParams r.1.2)
                        (serarchKeyword s))]).
Proof.
  revert s. induction ks as [|k ks IH]; intros s; cbn [forEachM].
  - split; [done |]. split; [done |]. by left.
  - unfold mbind, M_bind. cbv beta zeta.
    rewrite filterParams_set_sync_run. cbv zeta.
    case_decide as Hk.
    + cbn [fst snd].
      match goal with
      | |- context [forEachM ks _ ?s1] =>
          destruct (IH s1) as (H1 & H2 & H3);
          revert H1 H2 H3; generalize (forEachM ks
            (λ k, filterParams_set WatchSync k (Js.get D k)) s1)
      end.
      intros [[[] s'] effs]. cbn [fst snd filterParams serarchKeyword
        watchQueued upd_filterParams app].
      intros H1 H2 H3. split; [done |]. split; [done |].
      destruct H3 as [[-> H3]|H3]; [left | by right].
      split; [done |]. rewrite H3. by apply insert_id.
    + rewrite fetchData_run. cbv zeta. cbn [fst snd].
      match goal with
      | |- context [forEachM ks _ ?s1] =>
          destruct (IH s1) as (H1 & H2 & H3);
          revert H1 H2 H3; generalize (forEachM ks
            (λ k, filterParams_set WatchSync k (Js.get D k)) s1)
      end.
      intros [[[] s'] effs]. cbn [fst snd filterParams serarchKeyword
        watchQueued upd_filterParams upd_articleRequests upd_loading].
      intros H1 H2 H3. split; [done |]. split; [done |]. right.
      destruct H3 as [[-> H3]|[pre ->]].
      * exists []. by rewrite H3.
      * by eexists (_ :: pre).
Qed.

(** An event other than a select and the reset leaves the filter params
    as they are. *)
Lemma step_keeps_filterParams flush e s :
  (∀ f v, e ≠ FilterChange f v) → e ≠ ResetClick →
  filterParams (step SortTypeWithHot_Desc flush e s).1 = filterParams s.
Proof.
  intros H1 H2. rewrite step_run. cbv zeta. cbn [fst].
  apply (preserves_flush_watch (λ s', filterParams s' = filterParams s));
    try (intros ? ? H; exact H).
  assert (preserves (λ s', filterParams s' = filterParams s)
            (handle SortTypeWithHot_Desc flush e)) as Hp; [| by apply Hp].
  destruct e; simpl; try (frame; fail).
  - by destruct (H1 f v).
  - by destruct H2.
Qed.

(** Whatever the scheduling of the watcher: a step that changes the
    filter params ends with the list request of [fetchData()] on the
    filter params and the keyword it leaves. *)
Lemma step_change_ends_with_fetch flush e s :
  reachable SortTypeWithHot_Desc flush s →
  let s' := (step SortTypeWithHot_Desc flush e s).1 in
  filterParams s' ≠ filterParams s →
  ∃ pre,
    (step SortTypeWithHot_Desc flush e s).2 =
    pre ++ [GetArticles
              (fetchData_getParams None (filterParams s')
                 (serarchKeyword s'))].
Proof.
  intros Hs. cbv zeta.
  pose proof (reachable_watchQueued _ _ s Hs) as Hq.
  destruct e; try (intros H; destruct H; by apply step_keeps_filterParams).
  - (* a select *)
    rewrite step_FilterChange by done. cbv zeta.
    case_decide as Hk.
    + cbn [fst filterParams upd_filterParams]. intros H. destruct H.
      by apply insert_id.
    + rewrite fetchData_run. cbv zeta. cbn [fst snd]. intros _.
      by exists [].
  - (* the reset *)
    destruct flush.
    + rewrite step_ResetClick, resetParamsAndRefresh_run. cbv zeta.
      destruct (decide (filterParams s = DEFAULTS)) as [He|Hne].
      { rewrite fetchData_run, flush_watch_run. cbv zeta.
        cbn [fst snd filterParams watchQueued upd_serarchKeyword
             upd_articleRequests upd_loading].
        rewrite Hq. cbn [fst snd filterParams]. intros H. by destruct H. }
      destruct (forEachM_set_sync
                  ((DEFAULT_FILTER_PARAMS_literal SortTypeWithHot_Desc).*1)
                  DEFAULTS (upd_serarchKeyword (λ _, EmptyString) s))
        as (H1 & H2 & H3).
      revert H1 H2 H3.
      generalize (forEachM
                    ((DEFAULT_FILTER_PARAMS_literal SortTypeWithHot_Desc).*1)
                    (λ k, filterParams_set WatchSync k (Js.get DEFAULTS k))
                    (upd_serarchKeyword (λ _, EmptyString) s)).
      intros [[[] s1] effs].
      cbn [fst snd filterParams serarchKeyword watchQueued
           upd_serarchKeyword].
      intros H1 H2 H3. rewrite flush_watch_run, H2, Hq. cbn [fst snd].
      rewrite app_nil_r. intros Hchange.
      destruct H3 as [[_ H3]|[pre ->]]; [by destruct Hchange |].
      exists pre. by rewrite H1.
    + destruct (reset_deferred_one_fetch s Hs) as (H1 & H2 & H3).
      intros _. exists []. by rewrite H1, H2, H3.
Qed.

(** Whatever the scheduling of the watcher: the reset leaves the default
    filter params and the empty keyword, and its step ends with the list
    request on them. *)
Lemma reset_ends_with_default_fetch flush s :
  reachable SortTypeWithHot_Desc flush s →
  let r := step SortTypeWithHot_Desc flush ResetClick s in
  filterParams r.1 = DEFAULTS ∧
  serarchKeyword r.1 = EmptyString ∧
  ∃ pre,
    r.2 = pre ++ [GetArticles (fetchData_getParams None DEFAULTS EmptyString)].
Proof.
  intros Hs. cbv zeta.
  pose proof (reachable_watchQueued _ _ s Hs) as Hq.
  pose proof (reachable_keys _ _ s Hs) as Hd.
  assert (filterParams (step SortTypeWithHot_Desc flush ResetClick s).1
          = DEFAULTS ∧
          serarchKeyword (step SortTypeWithHot_Desc flush ResetClick s).1
          = EmptyString) as [Hfp Hkw].
  { destruct flush; [| by destruct (reset_deferred_one_fetch s Hs) as (_ & ? & ?)].
    rewrite step_ResetClick, resetParamsAndRefresh_run. cbv zeta.
    destruct (decide (filterParams s = DEFAULTS)) as [He|Hne].
    - rewrite fetchData_run, flush_watch_run. cbv zeta.
      cbn [fst snd filterParams watchQueued upd_serarchKeyword
           upd_articleRequests upd_loading].
      rewrite Hq. by cbn [fst snd filterParams serarchKeyword].
    - pose proof (forEachM_set_filterParams WatchSync
                    ((DEFAULT_FILTER_PARAMS_literal SortTypeWithHot_Desc).*1)
                    DEFAULTS (upd_serarchKeyword (λ _, EmptyString) s)) as H5.
      rewrite restore_defaults in H5 by exact Hd.
      destruct (forEachM_set_sync
                  ((DEFAULT_FILTER_PARAMS_literal SortTypeWithHot_Desc).*1)
                  DEFAULTS (upd_serarchKeyword (λ _, EmptyString) s))
        as (H1 & H2 & _).
      revert H1 H2 H5.
      generalize (forEachM
                    ((DEFAULT_FILTER_PARAMS_literal SortTypeWithHot_Desc).*1)
                    (λ k, filterParams_set WatchSync k (Js.get DEFAULTS k))
                    (upd_serarchKeyword (λ _, EmptyString) s)).
      intros [[[] s1] effs].
      cbn [fst snd filterParams serarchKeyword watchQueued
           upd_serarchKeyword].
      intros H1 H2 H5. rewrite flush_watch_run, H2, Hq. by cbn [fst snd]. }
  split; [exact Hfp |]. split; [exact Hkw |].
  destruct (decide (filterParams s = DEFAULTS)) as [He|Hne].
  - exists []. rewrite step_ResetClick, resetParamsAndRefresh_run. cbv zeta.
    rewrite decide_True by done.
    rewrite fetchData_run, flush_watch_run. cbv zeta.
    cbn [fst snd filterParams serarchKeyword watchQueued upd_serarchKeyword
         upd_articleRequests upd_loading].
    rewrite Hq. cbn [snd app]. by rewrite He.
  - destruct (step_change_ends_with_fetch flush ResetClick s Hs) as [pre Hpre].
    { by rewrite Hfp. }
    exists pre. by rewrite Hpre, Hfp, Hkw.
Qed.

(** The request on the defaults: the default sort (unless it were the
    sentinel) and nothing else. *)
Lemma default_request k :
  SortTypeWithHot_Desc ≠ SELECT_ALL_VALUE →
  Js.get (fetchData_getParams None DEFAULTS EmptyString) k =
  if decide (k = "sort") then SortTypeWithHot_Desc else Js.Undefined.
Proof.
  intros Hsort. unfold Js.get.
  destruct (decide (k = "keyword")) as [->|Hk].
  { by rewrite fetchData_getParams_keyword. }
  rewrite fetchData_getParams_other by done. simpl. rewrite lookup_empty.
  destruct (decide (k ∈ FILTER_KEYS)) as [Hin|Hout].
  - unfold FILTER_KEYS in Hin.
    rewrite elem_of_list_to_set, !elem_of_cons, elem_of_nil in Hin.
    destruct Hin as [->|[->|[->|[->|[->|[->|[->|[]]]]]]]];
      try reflexivity.
    change (DEFAULTS !! "sort") with (Some SortTypeWithHot_Desc).
    cbn beta iota.
    destruct (decide (SortTypeWithHot_Desc = SELECT_ALL_VALUE)); done.
  - rewrite (not_filter_key DEFAULTS k);
      [| apply dom_DEFAULT_FILTER_PARAMS | done].
    rewrite decide_False; [done |].
    intros ->. apply Hout. unfold FILTER_KEYS.
    rewrite elem_of_list_to_set, !elem_of_cons. tauto.
Qed.

End Reset.

(** With a watcher that runs inside the assignment, a reset after two
    filters were changed is followed by two list requests, the first one
    with one of the two filters still in place. *)
Lemma reset_sync_two_fetches :
  let s := (run (Js.Num (-1)) WatchSync (use_loading := flag_loading)
              [Mounted; FilterChange FState (Js.Num 1);
               FilterChange FLang (Js.Str "en")]
              (init (Js.Num (-1)))).1 in
  (step (Js.Num (-1)) WatchSync ResetClick s).2 =
  [ GetArticles
      (fetchData_getParams None
         (<["lang" := SELECT_ALL_VALUE]> (filterParams s)) EmptyString);
    GetArticles
      (fetchData_getParams None (DEFAULT_FILTER_PARAMS (Js.Num (-1)))
         EmptyString) ].
Proof. vm_compute. reflexivity. Qed.

(** ** The loading flags and overlapping requests *)

Section CountingLoading.

Variable SortTypeWithHot_Desc : Js.value.
Variable flush : WatchFlush.

Local Abbreviation StateC := (State (use_loading := counting_loading)).
Local Abbreviation handleC :=
  (handle SortTypeWithHot_Desc flush (use_loading := counting_loading)).

Lemma fetchData_counts_match params :
  preserves counts_match (fetchData params).
Proof.
  intros s (H1 & H2 & H3). rewrite fetchData_run. cbv zeta.
  split; [| by split]. simpl. rewrite length_app, H1. simpl. lia.
Qed.

Lemma handle_counts_match e : preserves counts_match (handleC e).
Proof.
  destruct e; simpl.
  - (* Mounted *)
    unfold onMounted. apply preserves_bind; [apply fetchData_counts_match |].
    intros _ x (H1 & H2 & H3). unfold fetchCategories, fetchTags.
    unfold_monad. simpl. repeat split; simpl; congruence.
  - apply preserves_filterParams_set_with;
      [apply fetchData_counts_match | by intros ? H..].
  - by intros x Hx.
  - apply fetchData_counts_match.
  - apply preserves_resetParamsAndRefresh_with;
      [apply fetchData_counts_match | by intros ? H.. |].
    by intros ? ? ? H _.
  - by intros x Hx.
  - intros x Hx. unfold_monad. simpl.
    destruct (bulk_disabled x); [done |].
    by destruct (bulkOptions !! i).
  - by intros x Hx.
  - apply fetchData_counts_match.
  - intros x Hx. unfold_monad. simpl.
    by destruct (modals x !! i) as [[ids st]|].
  - by intros x Hx.
  - intros x Hx. unfold_monad. simpl.
    destruct (articleRequests x !! i) as [q|] eqn:Hi; [| exact Hx].
    destruct Hx as (H1 & H2 & H3).
    assert (length (delete i (articleRequests x)) = Nat.pred (loading x)) as Hl.
    { rewrite length_delete by eauto. rewrite H1. lia. }
    destruct result as [r|]; simpl; repeat split; simpl; congruence.
  - intros x Hx. unfold_monad. simpl.
    destruct (categoryRequests x) as [|n] eqn:Hn; [exact Hx |].
    destruct Hx as (H1 & H2 & H3).
    destruct result; simpl; repeat split; simpl; try congruence;
      by rewrite H2, Hn.
  - intros x Hx. unfold_monad. simpl.
    destruct (tagRequests x) as [|n] eqn:Hn; [exact Hx |].
    destruct Hx as (H1 & H2 & H3).
    destruct result; simpl; repeat split; simpl; try congruence;
      by rewrite H3, Hn.
  - apply preserves_bind; [apply preserves_gets |]. intros ps.
    destruct (ps !! i) as [p|]; [| apply preserves_mret].
    apply preserves_bind; [apply preserves_modify; by intros ? H |].
    intros _. destruct ok; [| apply preserves_modify; by intros ? H].
    unfold handleStateChange_then, refreshData.
    apply preserves_bind; [apply preserves_gets |]. intros a.
    apply fetchData_counts_match.
Qed.

(** With the counting indicator every reachable state has each flag set
    while a request of its kind is pending. *)
Lemma counting_flags_cover_requests (s : StateC) :
  reachable SortTypeWithHot_Desc flush s → flags_cover_requests s.
Proof.
  intros Hs.
  assert (counts_match s) as (H1 & H2 & H3).
  { revert s Hs. apply (reachable_invariant _ _ counts_match); [done |].
    intros s e _ Hs. rewrite step_run. cbv zeta. cbn [fst].
    apply preserves_flush_watch_with;
      [apply fetchData_counts_match | by intros ? H |].
    by apply handle_counts_match. }
  unfold flags_cover_requests. simpl. rewrite H1, H2, H3.
  repeat split; intros H.
  - destruct (articleRequests s); done.
  - destruct (categoryRequests s); done.
  - destruct (tagRequests s); done.
Qed.

End CountingLoading.

(** With the plain flag, the first of two overlapping list requests to
    settle clears the flag while the second is still pending. *)
Lemma plain_flag_cleared_with_request_pending :
  let s := (run (Js.Num (-1)) WatchSync (use_loading := flag_loading)
              [Mounted; Search; ArticlesSettled 0 None]
              (init (Js.Num (-1)))).1 in
  reachable (Js.Num (-1)) WatchSync s ∧
  length (articleRequests s) = 1 ∧
  loading_value (loading s) = false ∧
  ¬ flags_cover_requests s.
Proof.
  cbv zeta. split; [by eexists |]. split; [reflexivity |].
  split; [reflexivity |].
  intros (H & _). by discriminate H.
Qed.

(** ** The statements of the specification *)

Section Statements.

Variable SortTypeWithHot_Desc : Js.value.
Variable flush : WatchFlush.
Context {use_loading : UseLoading}.

Local Abbreviation step := (step SortTypeWithHot_Desc flush).
Local Abbreviation run := (run SortTypeWithHot_Desc flush).
Local Abbreviation init := (init SortTypeWithHot_Desc).
Local Abbreviation reachable := (reachable SortTypeWithHot_Desc flush).

Implicit Types (s : State) (e : event) (es : list event) (n : nat).

(** The parameter object of a list fetch, property by property: the
    caller's params merged with the filter params, the latter winning;
    the keyword when it is neither empty nor the sentinel; no property
    that holds the sentinel. *)
Lemma fetchData_getParams_spec
    (params : option Js.object) (fp : Js.object) (kw : string) :
  let q := fetchData_getParams params fp kw in
  (∀ k v, k ≠ "keyword" → fp !! k = Some v → v ≠ SELECT_ALL_VALUE →
          q !! k = Some v) ∧
  (∀ k v, k ≠ "keyword" → fp !! k = None →
          Js.spread_opt params !! k = Some v → v ≠ SELECT_ALL_VALUE →
          q !! k = Some v) ∧
  (∀ k, k ≠ "keyword" → fp !! k = None → Js.spread_opt params !! k = None →
        q !! k = None) ∧
  (Js.carries q "keyword" ↔ kw ≠ EmptyString ∧ kw ≠ "ALL") ∧
  (Js.carries q "keyword" → Js.get q "keyword" = Js.Str kw) ∧
  (∀ k, q !! k ≠ Some SELECT_ALL_VALUE).
Proof.
  cbv zeta. split; [| split; [| split; [| split; [| split]]]].
  - intros k v Hk Hfp Hv. rewrite fetchData_getParams_other, Hfp by done.
    by rewrite decide_False.
  - intros k v Hk Hfp Hp Hv.
    rewrite fetchData_getParams_other, Hfp, Hp by done.
    by rewrite decide_False.
  - intros k Hk Hfp Hp. by rewrite fetchData_getParams_other, Hfp, Hp.
  - apply fetchData_getParams_carries_keyword.
  - intros H. apply fetchData_getParams_carries_keyword in H as [H1 H2].
    unfold Js.get. rewrite fetchData_getParams_keyword.
    by rewrite !decide_False.
  - apply fetchData_getParams_no_sentinel.
Qed.

(** C1.  The keyword is meant to be sent whenever the search field is not
    empty, but the loop that deletes the sentinel-valued keys runs over the
    keyword as well: for the non-empty keyword [ALL], whatever the caller's
    params and the filter params are, the request has no [keyword]
    property. *)
Theorem fetchData_drops_keyword_ALL
    (params : option Js.object) (fp : Js.object) :
  let q := fetchData_getParams params fp "ALL" in
  Js.Boolean "ALL" = true ∧ q !! "keyword" = None ∧ ¬ Js.carries q "keyword".
Proof.
  cbv zeta. split; [reflexivity |].
  split; [by rewrite fetchData_getParams_keyword |].
  rewrite fetchData_getParams_carries_keyword. tauto.
Qed.

(** C3.  The publish state is one of Draft, Published and Recycle, and the
    bulk-action menu has exactly three entries, whose targets are these
    three states, each once (the third entry, the one that moves to the
    bin, targets Recycle).  Each entry offers the transition to its
    target: in a reachable state with a selection, a click on the entry
    opens the confirmation dialog for the selected ids and the target of
    the entry, and the OK of that dialog calls the patch endpoint with
    these ids and this target; a click beside the three entries does
    nothing; and for every state there is exactly one entry whose click
    asks for the transition to it. *)
Theorem publish_states_and_bulk_options :
  (∀ st : PublishState, st = Draft ∨ st = Published ∨ st = Recycle) ∧
  target <$> bulkOptions = [Draft; Published; Recycle] ∧
  length bulkOptions = 3 ∧
  NoDup (target <$> bulkOptions) ∧
  (∀ st : PublishState, st ∈ target <$> bulkOptions) ∧
  ∀ s, reachable s → bulk_disabled s = false →
    (∀ i o, bulkOptions !! i = Some o →
       let r := step (BulkMenuClick i) s in
       r.2 = [ModalConfirm (selectedIds s) (target o)] ∧
       modals r.1 !! length (modals s) = Some (selectedIds s, target o) ∧
       (step (ModalOk (length (modals s))) r.1).2 =
         [PatchArticlesState (selectedIds s) (target o)]) ∧
    (∀ i, bulkOptions !! i = None → step (BulkMenuClick i) s = (s, [])) ∧
    (∀ st : PublishState, ∃ i,
       (step (BulkMenuClick i) s).2 = [ModalConfirm (selectedIds s) st] ∧
       ∀ j ids, ModalConfirm ids st ∈ (step (BulkMenuClick j) s).2 → j = i).
Proof.
  split; [by intros []; auto |].
  split; [reflexivity |].
  split; [reflexivity |].
  split.
  { simpl. repeat constructor; rewrite ?elem_of_cons, ?elem_of_nil;
      intuition discriminate. }
  split; [intros []; simpl; rewrite !elem_of_cons; auto |].
  intros s Hs Hd. pose proof (reachable_watchQueued _ _ s Hs) as Hq.
  split; [| split].
  - intros i o Ho. cbv zeta. rewrite step_BulkMenuClick by done.
    rewrite Hd, Ho. cbn [fst snd].
    assert (Hlast : modals (upd_modals (λ ms, ms ++ [(selectedIds s, target o)]) s)
                      !! length (modals s) = Some (selectedIds s, target o)).
    { cbn [modals upd_modals]. rewrite lookup_app_r by lia.
      by rewrite Nat.sub_diag. }
    split; [done |]. split; [done |].
    rewrite step_ModalOk by done. by rewrite Hlast.
  - intros i Hi. rewrite step_BulkMenuClick by done. by rewrite Hd, Hi.
  - intros st.
    exists (match st with Draft => 0 | Published => 1 | Recycle => 2 end).
    split.
    + rewrite step_BulkMenuClick by done. rewrite Hd. by destruct st.
    + intros j ids. rewrite step_BulkMenuClick by done. rewrite Hd.
      destruct j as [|[|[|j]]]; simpl; intros Hin;
        first [ by apply elem_of_nil in Hin
              | by apply list_elem_of_singleton in Hin as [= _ ->] ].
Qed.

(** A patch call in a trace sits in an entry of an OK, alone, and the
    dialog it confirms was opened before. *)
Lemma patch_in_trace es n e effs ids st :
  (run es init).2 !! n = Some (e, effs) →
  PatchArticlesState ids st ∈ effs →
  (∃ i, e = ModalOk i) ∧ effs = [PatchArticlesState ids st] ∧
  confirm_opened_before (run es init).2 n ids st.
Proof.
  intros Hn Hin.
  pose proof (proj2 (run_trace_ok SortTypeWithHot_Desc flush es) n e effs Hn)
    as Hentry.
  destruct e; simpl in Hentry;
    try (exfalso; apply (proj1 (Forall_forall _ _) Hentry) in Hin;
         exact Hin).
  - destruct Hentry as [->|(ids' & o & _ & _ & ->)].
    + by apply elem_of_nil in Hin.
    + by apply list_elem_of_singleton in Hin.
  - subst effs. by apply list_elem_of_singleton in Hin.
  - destruct Hentry as [->|(ids' & st' & -> & Hc)].
    + by apply elem_of_nil in Hin.
    + apply list_elem_of_singleton in Hin as [= -> ->]. eauto.
  - destruct Hentry as [->|(_ & q & ids' & st' & -> & _)].
    + by apply elem_of_nil in Hin.
    + by apply list_elem_of_singleton in Hin.
Qed.

(** C2.  In every run, a call of [patchArticlesState] is emitted only by
    the OK of a confirmation dialog, and that dialog was opened earlier,
    for the same ids and state, by a state-change request (bulk menu or
    row action); such a request only opens the dialog; the OK emits no
    list request; and the list request of [refreshData] is emitted when
    the patch promise resolves, after the patch was called. *)
Theorem patch_only_after_confirmation es n e effs :
  (run es init).2 !! n = Some (e, effs) →
  (∀ ids st,
     PatchArticlesState ids st ∈ effs →
     (∃ i, e = ModalOk i) ∧ effs = [PatchArticlesState ids st] ∧
     confirm_opened_before (run es init).2 n ids st) ∧
  (is_state_change_request e →
   effs = [] ∨ ∃ ids st, effs = [ModalConfirm ids st]) ∧
  (∀ i, e = ModalOk i →
        effs = [] ∨ ∃ ids st, effs = [PatchArticlesState ids st]) ∧
  (∀ i ok,
     e = PatchSettled i ok →
     effs = [] ∨
     (ok = true ∧
      ∃ q ids st, effs = [GetArticles q] ∧
                  patch_called_before (run es init).2 n ids st)).
Proof.
  intros Hn.
  pose proof (proj2 (run_trace_ok SortTypeWithHot_Desc flush es) n e effs Hn)
    as Hentry.
  split; [| split; [| split]].
  - intros ids st Hin. by eapply patch_in_trace.
  - intros He. destruct e; try (by destruct He); simpl in Hentry.
    + destruct Hentry as [->|(ids & o & _ & _ & ->)]; [by left | right; eauto].
    + right; eauto.
  - intros i ->. simpl in Hentry.
    destruct Hentry as [->|(ids & st & -> & _)]; [by left | right; eauto].
  - intros i ok ->. exact Hentry.
Qed.

(** A patch call in a trace never carries an empty id list. *)
Lemma patch_ids_nonempty es n e effs ids st :
  (run es init).2 !! n = Some (e, effs) →
  PatchArticlesState ids st ∈ effs → ids ≠ [].
Proof.
  intros Hn Hin.
  destruct (patch_in_trace es n e effs ids st Hn Hin)
    as (_ & _ & m & e0 & effs0 & _ & Hm & He0 & ->).
  pose proof (proj2 (run_trace_ok SortTypeWithHot_Desc flush es) m e0 _ Hm)
    as Hentry.
  destruct e0; try (by destruct He0); simpl in Hentry.
  - destruct Hentry as [?|(ids' & o & Hne & _ & [= -> _])]; done.
  - by injection Hentry as -> _.
Qed.

(** C10.  In a reachable state the bulk menu is disabled exactly when the
    selection is empty, and a disabled menu does nothing; when a click on
    it opens the dialog, the ids are the current, non-empty selection; the
    row action opens the dialog for the singleton list of the row's id;
    and no step calls the patch endpoint with an empty id list. *)
Theorem state_change_ids_nonempty s i a st :
  reachable s →
  (bulk_disabled s = true ↔ selectedIds s = []) ∧
  (bulk_disabled s = true → step (BulkMenuClick i) s = (s, [])) ∧
  (∀ ids st',
     ModalConfirm ids st' ∈ (step (BulkMenuClick i) s).2 →
     ids = selectedIds s ∧ ids ≠ []) ∧
  (step (UpdateState a st) s).2 = [ModalConfirm [_id a] st] ∧
  (∀ e ids st', PatchArticlesState ids st' ∈ (step e s).2 → ids ≠ []).
Proof.
  intros Hs. pose proof (reachable_watchQueued _ _ s Hs) as Hq.
  split; [| split; [| split; [| split]]].
  - unfold bulk_disabled. by destruct (selectedIds s).
  - intros Hd. rewrite step_BulkMenuClick by done. by rewrite Hd.
  - intros ids st'. rewrite step_BulkMenuClick by done.
    destruct (bulk_disabled s) eqn:Hd; simpl.
    { intros Hin. by apply elem_of_nil in Hin. }
    destruct (bulkOptions !! i) as [o|]; simpl.
    + intros Hin. apply list_elem_of_singleton in Hin as [= -> ->].
      split; [done | by apply bulk_disabled_false].
    + intros Hin. by apply elem_of_nil in Hin.
  - by rewrite step_UpdateState.
  - intros e ids st' Hin. destruct Hs as [es <-].
    apply (patch_ids_nonempty (es ++ [e]) (length (run es init).2) e
             (step e (run es init).1).2 ids st'); [| done].
    rewrite run_snoc. cbv zeta. cbn [snd].
    rewrite lookup_app_r by lia. by rewrite Nat.sub_diag.
Qed.

(** C4.  In a reachable state, a select that changes the value of its
    filter field makes the step emit exactly one list request, the one of
    [fetchData()] on the updated filter params: it has neither [page] nor
    [per_page], it reads the new value at the changed field (nothing when
    the new value is the sentinel), and the other fields as they were.
    More generally, whichever event changes the filter params, its step
    ends with the list request of [fetchData()] on the filter params it
    leaves. *)
Theorem filter_change_refetches s f v e :
  reachable s →
  (filterParams s !! field_key f ≠ Some v →
   let fp' := <[field_key f := v]> (filterParams s) in
   let q := fetchData_getParams None fp' (serarchKeyword s) in
   (step (FilterChange f v) s).2 = [GetArticles q] ∧
   filterParams (step (FilterChange f v) s).1 = fp' ∧
   q !! "page" = None ∧ q !! "per_page" = None ∧
   Js.get q (field_key f) =
     (if decide (v = SELECT_ALL_VALUE) then Js.Undefined else v) ∧
   (∀ g, g ≠ f →
         Js.get q (field_key g) =
         if decide (Js.get (filterParams s) (field_key g) = SELECT_ALL_VALUE)
         then Js.Undefined else Js.get (filterParams s) (field_key g))) ∧
  (filterParams (step e s).1 ≠ filterParams s →
   ∃ pre,
     (step e s).2 =
     pre ++ [GetArticles
               (fetchData_getParams None (filterParams (step e s).1)
                  (serarchKeyword (step e s).1))]).
Proof.
  intros Hs.
  split; [| by apply step_change_ends_with_fetch].
  intros Hv. cbv zeta.
  pose proof (reachable_watchQueued _ _ s Hs) as Hq.
  pose proof (reachable_keys _ _ s Hs) as Hd.
  assert (dom (<[field_key f := v]> (filterParams s)) = FILTER_KEYS) as Hd'.
  { apply dom_insert_filter_key; [done | apply field_key_in_FILTER_KEYS]. }
  rewrite step_FilterChange by done. cbv zeta.
  rewrite decide_False by done. rewrite fetchData_run. cbv zeta. cbn [fst snd].
  split; [reflexivity |]. split; [reflexivity |].
  split; [| split; [| split]].
  - rewrite fetchData_getParams_other by done. simpl.
    rewrite (not_filter_key _ "page" Hd' page_not_filter_key).
    by rewrite lookup_empty.
  - rewrite fetchData_getParams_other by done. simpl.
    rewrite (not_filter_key _ "per_page" Hd' per_page_not_filter_key).
    by rewrite lookup_empty.
  - rewrite fetchData_getParams_field. unfold Js.get.
    by rewrite lookup_insert_eq.
  - intros g Hg. rewrite fetchData_getParams_field. unfold Js.get.
    rewrite lookup_insert_ne; [done |].
    intros H. apply Hg. symmetry. by apply field_key_inj.
Qed.

(** C5.  In a reachable state, when a pending list fetch resolves with
    [r], the article state becomes [r], data and pagination alike, in that
    one step; the filter params, the keyword, the selection, the tags,
    the categories, the dialogs and the patch promises stay as they were,
    and the step emits nothing but the scroll to the top. *)
Theorem fetch_resolved_sets_article s i r :
  reachable s →
  is_Some (articleRequests s !! i) →
  let s' := (step (ArticlesSettled i (Some r)) s).1 in
  data (article s') = data r ∧
  pagination (article s') = pagination r ∧
  article s' = r ∧
  filterParams s' = filterParams s ∧
  serarchKeyword s' = serarchKeyword s ∧
  selectedIds s' = selectedIds s ∧
  tags s' = tags s ∧
  categoriesTree s' = categoriesTree s ∧
  modals s' = modals s ∧
  patchRequests s' = patchRequests s ∧
  (step (ArticlesSettled i (Some r)) s).2 = [ScrollTo].
Proof.
  intros Hs [q Hi]. cbv zeta.
  rewrite step_ArticlesSettled
    by exact (reachable_watchQueued SortTypeWithHot_Desc flush s Hs).
  rewrite Hi. simpl. repeat split; reflexivity.
Qed.

(** C6.  The filter params of every run have exactly the seven keys
    [tag_slug], [category_slug], [lang], [public], [origin], [state] and
    [sort], which are the keys of the defaults; the keyword is not one of
    them (it is a state field of its own); and no further event changes
    the key set. *)
Theorem filter_keys_invariant es e :
  dom (DEFAULT_FILTER_PARAMS SortTypeWithHot_Desc) = FILTER_KEYS ∧
  size FILTER_KEYS = 7 ∧
  ("keyword" ∉ FILTER_KEYS) ∧
  dom (filterParams (run es init).1) = FILTER_KEYS ∧
  dom (filterParams (step e (run es init).1).1) =
    dom (filterParams (run es init).1).
Proof.
  pose proof (reachable_keys _ _ _ (reachable_run SortTypeWithHot_Desc flush es))
    as Hd.
  split; [apply dom_DEFAULT_FILTER_PARAMS |].
  split; [reflexivity |].
  split; [apply keyword_not_filter_key |].
  split; [exact Hd |].
  rewrite Hd. by apply step_preserves_keys.
Qed.

(** The request of [refreshData] reads the page and the page size of the
    current pagination, [undefined] when there is none. *)
Lemma refreshData_request s :
  dom (filterParams s) = FILTER_KEYS →
  ∃ q, (refreshData s).2 = [GetArticles q] ∧
       Js.get q "page" = optional current_page (pagination (article s)) ∧
       Js.get q "per_page" = optional per_page (pagination (article s)).
Proof.
  intros Hd. rewrite refreshData_run, fetchData_run. cbv zeta. cbn [snd].
  eexists. split; [reflexivity |].
  unfold Js.get.
  rewrite !fetchData_getParams_other by done.
  rewrite (not_filter_key _ "page" Hd page_not_filter_key).
  rewrite (not_filter_key _ "per_page" Hd per_page_not_filter_key).
  unfold page_params. simpl.
  rewrite lookup_insert_ne by done. rewrite !lookup_insert_eq.
  unfold optional, SELECT_ALL_VALUE.
  destruct (pagination (article s)); simpl; done.
Qed.

(** C9.  In a reachable state, when a pending patch promise resolves, the
    step emits exactly one list request, the one of [refreshData]: its
    [page] and [per_page] are the current page and page size of the
    article pagination, and both read [undefined] when there is no
    pagination yet. *)
Theorem refresh_keeps_page s i p :
  reachable s →
  patchRequests s !! i = Some p →
  ∃ q,
    (step (PatchSettled i true) s).2 = [GetArticles q] ∧
    Js.get q "page" = optional current_page (pagination (article s)) ∧
    Js.get q "per_page" = optional per_page (pagination (article s)) ∧
    (∀ pg, pagination (article s) = Some pg →
           Js.get q "page" = Js.Num (current_page pg) ∧
           Js.get q "per_page" = Js.Num (per_page pg)) ∧
    (pagination (article s) = None →
     ¬ Js.carries q "page" ∧ ¬ Js.carries q "per_page").
Proof.
  intros Hs Hi.
  pose proof (reachable_watchQueued _ _ s Hs) as Hq.
  pose proof (reachable_keys _ _ s Hs) as Hd.
  rewrite step_PatchSettled by done. rewrite Hi. cbv zeta. cbn [snd].
  destruct (refreshData_request (upd_patchRequests (delete i) s) Hd)
    as (q & Hq1 & Hq2 & Hq3).
  exists q. simpl in Hq2, Hq3.
  split; [exact Hq1 |]. split; [exact Hq2 |]. split; [exact Hq3 |].
  split.
  - intros pg Hpg. rewrite Hq2, Hq3, Hpg. done.
  - intros Hnone. unfold Js.carries. rewrite Hq2, Hq3, Hnone. simpl. tauto.
Qed.

End Statements.

(** ** The statements on concrete runs *)

Lemma patch_only_after_confirmation_witness :
  confirm_opened_before
    (run (Js.Num (-1)) WatchSync (use_loading := flag_loading)
       [Select [Js.Str "a1"]; BulkMenuClick 1; ModalOk 0; PatchSettled 0 true]
       (init (Js.Num (-1)))).2
    2 [Js.Str "a1"] Published.
Proof.
  refine (proj2 (proj2 (proj1
    (patch_only_after_confirmation (Js.Num (-1)) WatchSync
       (use_loading := flag_loading)
       [Select [Js.Str "a1"]; BulkMenuClick 1; ModalOk 0; PatchSettled 0 true]
       2 (ModalOk 0) [PatchArticlesState [Js.Str "a1"] Published] _)
    [Js.Str "a1"] Published _))).
  - reflexivity.
  - left.
Defined.

Lemma publish_states_and_bulk_options_witness :
  (step (Js.Num (-1)) WatchSync (use_loading := flag_loading)
     (BulkMenuClick 1)
     (run (Js.Num (-1)) WatchSync [Select [Js.Str "a1"]]
        (init (Js.Num (-1)))).1).2
  = [ModalConfirm [Js.Str "a1"] Published].
Proof.
  refine (proj1 (proj1 (proj2 (proj2 (proj2 (proj2 (proj2
    (publish_states_and_bulk_options (Js.Num (-1)) WatchSync
       (use_loading := flag_loading))))))
    (run (Js.Num (-1)) WatchSync [Select [Js.Str "a1"]]
       (init (Js.Num (-1)))).1 _ _)
    1 {| label := "直接发布"; target := Published |} eq_refl)).
  - by exists [Select [Js.Str "a1"]].
  - reflexivity.
Defined.

Lemma state_change_ids_nonempty_witness :
  (step (Js.Num (-1)) WatchSync (use_loading := flag_loading)
     (UpdateState {| _id := Js.Str "a2" |} Draft)
     (run (Js.Num (-1)) WatchSync [Select [Js.Str "a1"]]
        (init (Js.Num (-1)))).1).2
  = [ModalConfirm [Js.Str "a2"] Draft].
Proof.
  refine (proj1 (proj2 (proj2 (proj2
    (state_change_ids_nonempty (Js.Num (-1)) WatchSync
       (use_loading := flag_loading) _ 1 {| _id := Js.Str "a2" |} Draft _))))).
  by exists [Select [Js.Str "a1"]].
Defined.

Lemma filter_change_refetches_witness :
  (step (Js.Num (-1)) WatchDeferred (use_loading := flag_loading)
     (FilterChange FState (Js.Num 1)) (init (Js.Num (-1)))).2
  = [GetArticles
       (fetchData_getParams None
          (<["state" := Js.Num 1]> (DEFAULT_FILTER_PARAMS (Js.Num (-1))))
          EmptyString)].
Proof.
  refine (proj1 (proj1
    (filter_change_refetches (Js.Num (-1)) WatchDeferred
       (use_loading := flag_loading) (init (Js.Num (-1))) FState (Js.Num 1)
       ResetClick _) _)).
  - by exists [].
  - vm_compute. discriminate.
Defined.

Lemma fetch_resolved_sets_article_witness :
  article
    (step (Js.Num (-1)) WatchSync (use_loading := flag_loading)
       (ArticlesSettled 0 (Some sample_page))
       (run (Js.Num (-1)) WatchSync [Mounted] (init (Js.Num (-1)))).1).1
  = sample_page.
Proof.
  refine (proj1 (proj2 (proj2
    (fetch_resolved_sets_article (Js.Num (-1)) WatchSync
       (use_loading := flag_loading) _ 0 sample_page _ _)))).
  - by exists [Mounted].
  - by eexists.
Defined.

Lemma refresh_keeps_page_witness :
  ∃ q,
    (step (Js.Num (-1)) WatchSync (use_loading := flag_loading)
       (PatchSettled 0 true)
       (run (Js.Num (-1)) WatchSync
          [Mounted; ArticlesSettled 0 (Some sample_page);
           Select [Js.Str "a1"]; BulkMenuClick 0; ModalOk 0]
          (init (Js.Num (-1)))).1).2 = [GetArticles q] ∧
    Js.get q "page" = Js.Num 3 ∧ Js.get q "per_page" = Js.Num 16.
Proof.
  destruct
    (refresh_keeps_page (Js.Num (-1)) WatchSync (use_loading := flag_loading)
       (run (Js.Num (-1)) WatchSync
          [Mounted; ArticlesSettled 0 (Some sample_page);
           Select [Js.Str "a1"]; BulkMenuClick 0; ModalOk 0]
          (init (Js.Num (-1)))).1
       0 ([Js.Str "a1"], Draft))
    as (q & H1 & H2 & H3 & _).
  - by eexists.
  - reflexivity.
  - exists q. split; [exact H1 |]. split; [exact H2 | exact H3].
Defined.

(** * Further properties of the page *)

(** ** The parameter object as a whole *)

(** X1.  The loop of lines 92-96 is a filter, whatever the order in which
    the keys are visited: run over any list that has all the keys of the
    object, it deletes exactly the properties that hold the sentinel and
    keeps every other property with its value.  The parameter object of
    [fetchData] is the merged object without its sentinel-valued
    properties. *)
Theorem sentinel_loop_is_filter (o : Js.object) (ks : list string) :
  (∀ k, is_Some (o !! k) → k ∈ ks) →
  Js.forEach ks deleteIfAll o =
    filter (λ kv : string * Js.value, kv.2 ≠ SELECT_ALL_VALUE) o ∧
  ∀ params fp kw,
    fetchData_getParams params fp kw =
    filter (λ kv : string * Js.value, kv.2 ≠ SELECT_ALL_VALUE)
      (<["keyword" := if Js.Boolean kw then Js.Str kw else Js.Undefined]>
         (Js.spread (Js.spread_opt params) fp)).
Proof.
  intros Hks.
  assert (∀ (m : Js.object) j,
            filter (λ kv : string * Js.value, kv.2 ≠ SELECT_ALL_VALUE) m !! j =
            match m !! j with
            | Some v => if decide (v = SELECT_ALL_VALUE) then None else Some v
            | None => None
            end) as Hfilter.
  { intros m j. rewrite map_lookup_filter.
    destruct (m !! j) as [v|]; simpl; [| done].
    destruct (decide (v = SELECT_ALL_VALUE)) as [->|Hv].
    - rewrite option_guard_False; [done |]. simpl. tauto.
    - by rewrite option_guard_True. }
  split.
  - apply map_eq. intros j.
    rewrite forEach_deleteIfAll_lookup, Hfilter.
    destruct (o !! j) as [v|] eqn:Hj.
    + destruct (decide (v = SELECT_ALL_VALUE)) as [->|Hv].
      * rewrite decide_True; [done |]. split; [| done].
        apply Hks. by rewrite Hj.
      * rewrite decide_False; [done |]. intros [_ [= ?]]. by apply Hv.
    + by case_decide.
  - intros params fp kw. apply map_eq. intros j.
    by rewrite fetchData_getParams_lookup, Hfilter.
Qed.

(** X2.  The caller of [fetchData] decides nothing about a filter or about
    the keyword: two parameter objects that agree outside the keys of the
    filter params and outside [keyword] give the same request, and passing
    the empty object is passing nothing. *)
Theorem caller_params_do_not_override
    (p p' : Js.object) (fp : Js.object) (kw : string) :
  (∀ k, fp !! k = None → k ≠ "keyword" → p !! k = p' !! k) →
  fetchData_getParams (Some p) fp kw = fetchData_getParams (Some p') fp kw ∧
  fetchData_getParams (Some ∅) fp kw = fetchData_getParams None fp kw.
Proof.
  intros Hagree. split; [| reflexivity].
  apply map_eq. intros j.
  destruct (decide (j = "keyword")) as [->|Hj].
  - by rewrite !fetchData_getParams_keyword.
  - rewrite !fetchData_getParams_other by done. simpl.
    destruct (fp !! j) eqn:Hfp; [done |]. by rewrite Hagree.
Qed.

(** ** What every step keeps and what every request satisfies *)

Section Triples.

Variable SortTypeWithHot_Desc : Js.value.
Variable flush : WatchFlush.
Context {use_loading : UseLoading}.

Implicit Types (s : State) (e : event) (k : string) (v : Js.value)
  (P : State → Prop) (Q : effect → Prop).

Lemma triple_mret {A} P Q (a : A) : triple P Q (mret a : M A).
Proof. intros s Hs. split; [exact Hs | constructor]. Qed.

Lemma triple_bind {A B} P Q (m : M A) (f : A → M B) :
  triple P Q m → (∀ a, triple P Q (f a)) → triple P Q (m ≫= f).
Proof.
  intros Hm Hf s Hs. unfold mbind, M_bind. cbv beta zeta. cbn [fst snd].
  destruct (Hm s Hs) as [H1 H2].
  destruct (Hf (m s).1.1 (m s).1.2 H1) as [H3 H4].
  split; [exact H3 |]. apply Forall_app. by split.
Qed.

Lemma triple_gets {A} P Q (f : State → A) : triple P Q (gets f).
Proof. intros s Hs. split; [exact Hs | constructor]. Qed.

Lemma triple_modify P Q (f : State → State) :
  (∀ s, P s → P (f s)) → triple P Q (modify f).
Proof. intros Hf s Hs. split; [by apply Hf | constructor]. Qed.

Lemma triple_emit P Q (ef : effect) : Q ef → triple P Q (emit ef).
Proof. intros H s Hs. split; [exact Hs | by repeat constructor]. Qed.

Lemma triple_forEachM {A} P Q (xs : list A) (f : A → M unit) :
  (∀ x, x ∈ xs → triple P Q (f x)) → triple P Q (forEachM xs f).
Proof.
  induction xs as [|x xs IH]; intros Hf; cbn [forEachM].
  - apply triple_mret.
  - apply triple_bind.
    + apply Hf. left.
    + intros _. apply IH. intros y Hy. apply Hf. by right.
Qed.

Lemma triple_fetchData P Q params :
  frame_closed P →
  (∀ s, P s →
        Q (GetArticles
             (fetchData_getParams params (filterParams s)
                (serarchKeyword s)))) →
  triple P Q (fetchData params).
Proof.
  intros (H1 & _ & _ & _ & _ & _ & _ & _ & H2 & _) HQ s Hs.
  rewrite fetchData_run. cbv zeta. cbn [fst snd]. split.
  - by apply H2, H1.
  - repeat constructor. by apply HQ.
Qed.

Lemma triple_trigger P Q :
  frame_closed P →
  (∀ s, P s →
        Q (GetArticles
             (fetchData_getParams None (filterParams s) (serarchKeyword s)))) →
  triple P Q (trigger flush).
Proof.
  intros Hc HQ s Hs. rewrite trigger_run. destruct flush.
  - by apply triple_fetchData.
  - cbn [fst snd]. split; [| constructor].
    destruct Hc as (_ & _ & _ & _ & _ & _ & _ & H & _). by apply H.
Qed.

Lemma triple_filterParams_set P Q k v :
  frame_closed P →
  (∀ s, P s → P (upd_filterParams (λ _, <[k := v]> (filterParams s)) s)) →
  (∀ s, P s →
        Q (GetArticles
             (fetchData_getParams None (filterParams s) (serarchKeyword s)))) →
  triple P Q (filterParams_set flush k v).
Proof.
  intros Hc Hset HQ s Hs. rewrite filterParams_set_run. cbv zeta.
  case_decide.
  - cbn [fst snd]. split; [by apply Hset | constructor].
  - apply triple_trigger; auto.
Qed.

Lemma triple_resetParamsAndRefresh P Q :
  frame_closed P →
  (∀ s k v, P s → k ∈ FILTER_KEYS →
            P (upd_filterParams (λ _, <[k := v]> (filterParams s)) s)) →
  (∀ s f, P s → P (upd_serarchKeyword f s)) →
  (∀ s, P s →
        Q (GetArticles
             (fetchData_getParams None (filterParams s) (serarchKeyword s)))) →
  triple P Q (resetParamsAndRefresh SortTypeWithHot_Desc flush).
Proof.
  intros Hc Hset Hkw HQ. unfold resetParamsAndRefresh, batchedUpdates.
  apply triple_bind; [apply triple_modify; auto |]. intros _.
  apply triple_bind; [apply triple_gets |]. intros fp.
  case_decide.
  - by apply triple_fetchData.
  - apply triple_forEachM. intros k Hk.
    apply triple_filterParams_set; auto.
    intros s Hs. apply Hset; [done |].
    clear -Hk. simpl in Hk. unfold FILTER_KEYS.
    rewrite elem_of_list_to_set. rewrite !elem_of_cons in *. tauto.
Qed.

Lemma triple_flush_watch P Q :
  frame_closed P →
  (∀ s, P s →
        Q (GetArticles
             (fetchData_getParams None (filterParams s) (serarchKeyword s)))) →
  triple P Q flush_watch.
Proof.
  intros Hc HQ s Hs. rewrite flush_watch_run.
  destruct (watchQueued s); [| split; [exact Hs | constructor]].
  apply triple_fetchData; auto.
  destruct Hc as (_ & _ & _ & _ & _ & _ & _ & H & _). by apply H.
Qed.

End Triples.

Ltac triple_step HQo :=
  first
    [ apply triple_mret
    | apply triple_gets
    | apply triple_bind; [| intros ?]
    | apply triple_emit; apply HQo; intros []
    | apply triple_modify; intros ? ?; solve [auto]
    | match goal with
      | |- triple _ _ (match ?x with _ => _ end) => destruct x
      end ].

Section TripleHandle.

Variable SortTypeWithHot_Desc : Js.value.
Variable flush : WatchFlush.
Context {use_loading : UseLoading}.

Implicit Types (s : State) (e : event) (P : State → Prop) (Q : effect → Prop).

(** The rule for a whole handler. *)
Lemma handle_triple P Q e :
  frame_closed P →
  (∀ s k v, P s → k ∈ FILTER_KEYS →
            P (upd_filterParams (λ _, <[k := v]> (filterParams s)) s)) →
  (writes_keyword e = true → ∀ s f, P s → P (upd_serarchKeyword f s)) →
  (∀ s, P s →
        Q (GetArticles
             (fetchData_getParams None (filterParams s) (serarchKeyword s)))) →
  (paginates e = true →
   ∀ s p, P s →
          Q (GetArticles
               (fetchData_getParams (Some p) (filterParams s)
                  (serarchKeyword s)))) →
  (∀ ef, ¬ is_list_request ef → Q ef) →
  triple P Q (handle SortTypeWithHot_Desc flush e).
Proof.
  intros Hc Hset Hkw HQ HQp HQo.
  pose proof Hc as (? & ? & ? & ? & ? & ? & ? & ? & ? & ? & ? & ? & ?).
  destruct e; simpl;
    unfold onMounted, fetchCategories, fetchTags, fetchCategories_then,
      fetchTags_then, fetchData_then, handleSelect, handleStateChange,
      handleStateChange_onOk, handleStateChange_then, refreshData,
      DropdownMenu_click, batchedUpdates.
  - apply triple_bind; [by apply triple_fetchData |]. intros _.
    repeat triple_step HQo.
  - apply triple_filterParams_set; auto.
    intros x Hx. apply Hset; [done | apply field_key_in_FILTER_KEYS].
  - apply triple_modify. intros x Hx. by apply Hkw.
  - by apply triple_fetchData.
  - apply triple_resetParamsAndRefresh; auto.
  - repeat triple_step HQo.
  - repeat triple_step HQo.
  - repeat triple_step HQo.
  - apply triple_fetchData; [done |]. intros x Hx. by apply HQp.
  - repeat triple_step HQo.
  - repeat triple_step HQo.
  - repeat triple_step HQo.
  - repeat triple_step HQo.
  - repeat triple_step HQo.
  - apply triple_bind; [apply triple_gets |]. intros ps.
    destruct (ps !! i) as [p|]; [| apply triple_mret].
    apply triple_bind; [apply triple_modify; intros ? ?; solve [auto] |].
    intros _. destruct ok; [| apply triple_modify; intros ? ?; solve [auto]].
    apply triple_bind; [apply triple_gets |]. intros a.
    apply triple_fetchData; [done |]. intros x Hx. by apply HQp.
Qed.

Lemma step_triple P Q e s :
  frame_closed P →
  (∀ s k v, P s → k ∈ FILTER_KEYS →
            P (upd_filterParams (λ _, <[k := v]> (filterParams s)) s)) →
  (writes_keyword e = true → ∀ s f, P s → P (upd_serarchKeyword f s)) →
  (∀ s, P s →
        Q (GetArticles
             (fetchData_getParams None (filterParams s) (serarchKeyword s)))) →
  (paginates e = true →
   ∀ s p, P s →
          Q (GetArticles
               (fetchData_getParams (Some p) (filterParams s)
                  (serarchKeyword s)))) →
  (∀ ef, ¬ is_list_request ef → Q ef) →
  P s →
  P (step SortTypeWithHot_Desc flush e s).1 ∧
  Forall Q (step SortTypeWithHot_Desc flush e s).2.
Proof.
  intros Hc Hset Hkw HQ HQp HQo Hs. rewrite step_run. cbv zeta. cbn [fst snd].
  destruct (handle_triple P Q e Hc Hset Hkw HQ HQp HQo s Hs) as [H1 H2].
  destruct (triple_flush_watch P Q Hc HQ _ H1) as [H3 H4].
  split; [exact H3 |]. apply Forall_app. by split.
Qed.

End TripleHandle.

Section EveryRequest.

Variable SortTypeWithHot_Desc : Js.value.
Variable flush : WatchFlush.
Context {use_loading : UseLoading}.

Local Abbreviation step := (step SortTypeWithHot_Desc flush).
Local Abbreviation reachable := (reachable SortTypeWithHot_Desc flush).

Implicit Types (s : State) (e : event) (q : Js.object).

Lemma frame_closed_True : frame_closed (λ _ : State, True).
Proof. by repeat split. Qed.

Lemma frame_closed_keys :
  frame_closed (λ s, dom (filterParams s) = FILTER_KEYS).
Proof. repeat split; intros ? ? H; exact H. Qed.

Lemma frame_closed_keyword (kw : string) :
  frame_closed (λ s, serarchKeyword s = kw).
Proof. repeat split; intros ? ? H; exact H. Qed.

Lemma fetchData_getParams_reads_keyword params (fp : Js.object) kw :
  Js.get (fetchData_getParams params fp kw) "keyword" = keyword_param kw.
Proof.
  unfold Js.get, keyword_param. rewrite fetchData_getParams_keyword.
  repeat case_decide; try done; tauto.
Qed.

(** X3.  No step, in any state, sends a list request with a property that
    holds the sentinel ['ALL']: an unconstrained filter is never sent. *)
Theorem no_request_carries_sentinel s e q (k : string) :
  GetArticles q ∈ (step e s).2 → q !! k ≠ Some SELECT_ALL_VALUE.
Proof.
  intros Hin.
  unshelve epose proof
    (step_triple SortTypeWithHot_Desc flush (λ _, True)
       (λ ef, match ef with
              | GetArticles q => ∀ k, q !! k ≠ Some SELECT_ALL_VALUE
              | _ => True
              end) e s _ _ _ _ _ _ _) as [_ HQ].
  - apply frame_closed_True.
  - by intros.
  - by intros.
  - intros x _ j. apply fetchData_getParams_no_sentinel.
  - intros _ x p _ j. apply fetchData_getParams_no_sentinel.
  - by intros [].
  - exact I.
  - by apply (proj1 (Forall_forall _ _) HQ _ Hin).
Qed.

(** X4.  Every list request a step sends reads, at [keyword], the search
    keyword as the step leaves it: the keyword typed into the search box
    goes out with the next list request of any cause, and the requests of
    a reset go out without keyword.  (It reads [undefined] for the empty
    keyword and for the keyword ['ALL'].) *)
Theorem requests_carry_current_keyword s e q :
  GetArticles q ∈ (step e s).2 →
  Js.get q "keyword" = keyword_param (serarchKeyword (step e s).1).
Proof.
  assert (∀ kw (x : State),
            serarchKeyword x = kw →
            Js.get (fetchData_getParams None (filterParams x) (serarchKeyword x))
                   "keyword" = keyword_param kw) as HQ.
  { intros kw x <-. apply fetchData_getParams_reads_keyword. }
  assert (∀ kw (m : M unit) (x : State),
            triple (λ s, serarchKeyword s = kw)
                   (λ ef, match ef with
                          | GetArticles q =>
                              Js.get q "keyword" = keyword_param kw
                          | _ => True
                          end) m →
            serarchKeyword x = kw →
            GetArticles q ∈ (m x).2 ++ (flush_watch (m x).1.2).2 →
            Js.get q "keyword" =
              keyword_param (serarchKeyword (flush_watch (m x).1.2).1.2))
    as Hgen.
  { intros kw m x Hm Hx Hin. destruct (Hm x Hx) as [H1 H2].
    destruct (triple_flush_watch (λ s, serarchKeyword s = kw)
                (λ ef, match ef with
                       | GetArticles q =>
                           Js.get q "keyword" = keyword_param kw
                       | _ => True
                       end)
                (frame_closed_keyword kw) (HQ kw) _ H1)
      as [H3 H4].
    rewrite H3.
    by apply (proj1 (Forall_forall _ _)
                (proj2 (Forall_app _ _ _) (conj H2 H4)) _ Hin). }
  rewrite step_run. cbv zeta. cbn [fst snd].
  destruct (writes_keyword e) eqn:Hw.
  - destruct e; try discriminate Hw.
    + (* typing *)
      intros Hin.
      exact (Hgen s0 (mret tt) (upd_serarchKeyword (λ _, s0) s)
               (triple_mret _ _ tt) eq_refl Hin).
    + (* the reset: the keyword is cleared before anything is sent *)
      simpl handle. rewrite resetParamsAndRefresh_run. cbv zeta.
      set (x := upd_serarchKeyword (λ _, EmptyString) s).
      case_decide; intros Hin.
      * apply (Hgen EmptyString (fetchData None) x);
          [| reflexivity | exact Hin].
        apply triple_fetchData;
          [apply frame_closed_keyword | apply HQ].
      * apply (Hgen EmptyString
                 (forEachM
                    ((DEFAULT_FILTER_PARAMS_literal SortTypeWithHot_Desc).*1)
                    (λ k, filterParams_set flush k
                            (Js.get
                               (DEFAULT_FILTER_PARAMS SortTypeWithHot_Desc) k)))
                 x); [| reflexivity | exact Hin].
        apply triple_forEachM. intros k _.
        apply triple_filterParams_set;
          [apply frame_closed_keyword | by intros | apply HQ].
  - intros Hin.
    apply (Hgen (serarchKeyword s) (handle SortTypeWithHot_Desc flush e) s);
      [| reflexivity | exact Hin].
    apply handle_triple.
    + apply frame_closed_keyword.
    + by intros.
    + by rewrite Hw.
    + apply HQ.
    + intros _ x p <-. apply fetchData_getParams_reads_keyword.
    + by intros [].
Qed.

(** X5.  In a reachable state, only the pagination of the table and the
    refresh after a state change send a page: the list requests of every
    other step (mount, select, search, reset, ...) have neither [page] nor
    [per_page]. *)
Theorem only_pagination_sends_page s e q :
  reachable s →
  paginates e = false →
  GetArticles q ∈ (step e s).2 →
  q !! "page" = None ∧ q !! "per_page" = None.
Proof.
  intros Hs He Hin.
  pose proof (reachable_keys _ _ s Hs) as Hd.
  unshelve epose proof
    (step_triple SortTypeWithHot_Desc flush
       (λ s, dom (filterParams s) = FILTER_KEYS)
       (λ ef, match ef with
              | GetArticles q => q !! "page" = None ∧ q !! "per_page" = None
              | _ => True
              end) e s _ _ _ _ _ _ _) as [_ HQ].
  - apply frame_closed_keys.
  - intros x k v Hx Hk. by apply dom_insert_filter_key.
  - by intros.
  - intros x Hx. cbv beta iota.
    rewrite !fetchData_getParams_other by done. simpl.
    rewrite (not_filter_key _ "page" Hx page_not_filter_key).
    rewrite (not_filter_key _ "per_page" Hx per_page_not_filter_key).
    by rewrite lookup_empty.
  - by rewrite He.
  - by intros [].
  - exact Hd.
  - by apply (proj1 (Forall_forall _ _) HQ _ Hin).
Qed.

End EveryRequest.

(** ** The other handlers *)

Section OtherHandlers.

Variable SortTypeWithHot_Desc : Js.value.
Variable flush : WatchFlush.
Context {use_loading : UseLoading}.

Local Abbreviation step := (step SortTypeWithHot_Desc flush).
Local Abbreviation handle := (handle SortTypeWithHot_Desc flush).
Local Abbreviation init := (init SortTypeWithHot_Desc).
Local Abbreviation reachable := (reachable SortTypeWithHot_Desc flush).
Local Abbreviation DEFAULTS := (DEFAULT_FILTER_PARAMS SortTypeWithHot_Desc).

Implicit Types (s : State) (e : event) (q : Js.object).

(** Reading a filter field of any request, in a state that has the
    field. *)
Lemma fetchData_getParams_filter_field params (fp : Js.object) kw f :
  dom fp = FILTER_KEYS →
  Js.get (fetchData_getParams params fp kw) (field_key f) =
  if decide (Js.get fp (field_key f) = SELECT_ALL_VALUE) then Js.Undefined
  else Js.get fp (field_key f).
Proof.
  intros Hd.
  assert (is_Some (fp !! field_key f)) as [w Hw].
  { apply elem_of_dom. rewrite Hd. apply field_key_in_FILTER_KEYS. }
  unfold Js.get.
  rewrite fetchData_getParams_other by apply field_key_not_keyword.
  rewrite Hw. simpl. by destruct (decide (w = SELECT_ALL_VALUE)).
Qed.

Lemma fetchData_getParams_page (fp : Js.object) kw (page per_page : Z) :
  dom fp = FILTER_KEYS →
  let q := fetchData_getParams
             (Some (page_params (Js.Num page) (Js.Num per_page))) fp kw in
  Js.get q "page" = Js.Num page ∧ Js.get q "per_page" = Js.Num per_page.
Proof.
  intros Hd. cbv zeta. unfold Js.get.
  rewrite !fetchData_getParams_other by done.
  rewrite (not_filter_key _ "page" Hd page_not_filter_key).
  rewrite (not_filter_key _ "per_page" Hd per_page_not_filter_key).
  unfold page_params. simpl.
  rewrite lookup_insert_ne by done. by rewrite !lookup_insert_eq.
Qed.

(** X6.  In a reachable state, paging the table sends exactly one list
    request: it reads the page and the page size the table gave, every
    filter as it stands (nothing for a filter on ['ALL']) and the current
    keyword; the filter params, the article list and the selection are
    left alone. *)
Theorem paginate_request s (page pageSize : Z) :
  reachable s →
  ∃ q,
    (step (Paginate page pageSize) s).2 = [GetArticles q] ∧
    Js.get q "page" = Js.Num page ∧
    Js.get q "per_page" = Js.Num pageSize ∧
    (∀ f, Js.get q (field_key f) =
          if decide (Js.get (filterParams s) (field_key f) = SELECT_ALL_VALUE)
          then Js.Undefined else Js.get (filterParams s) (field_key f)) ∧
    Js.get q "keyword" = keyword_param (serarchKeyword s) ∧
    filterParams (step (Paginate page pageSize) s).1 = filterParams s ∧
    article (step (Paginate page pageSize) s).1 = article s ∧
    selectedIds (step (Paginate page pageSize) s).1 = selectedIds s.
Proof.
  intros Hs.
  pose proof (reachable_watchQueued _ _ s Hs) as Hq.
  pose proof (reachable_keys _ _ s Hs) as Hd.
  rewrite step_plain by done. simpl handle. rewrite fetchData_run.
  cbv zeta. cbn [fst snd]. eexists. split; [reflexivity |].
  destruct (fetchData_getParams_page (filterParams s) (serarchKeyword s)
              page pageSize Hd) as [H1 H2].
  split; [exact H1 |]. split; [exact H2 |].
  split; [intros f; by apply fetchData_getParams_filter_field |].
  split; [apply fetchData_getParams_reads_keyword |].
  done.
Qed.

(** X7.  In a reachable state, typing into the search box sends nothing
    and leaves the filter params alone; the search that follows sends
    exactly one list request, which reads the typed keyword ([undefined]
    for the empty keyword and for ['ALL']), every filter as it stands, and
    no page. *)
Theorem typed_keyword_is_sent_on_search s (kw : string) :
  reachable s →
  (step (KeywordChange kw) s).2 = [] ∧
  filterParams (step (KeywordChange kw) s).1 = filterParams s ∧
  serarchKeyword (step (KeywordChange kw) s).1 = kw ∧
  ∃ q,
    (step Search (step (KeywordChange kw) s).1).2 = [GetArticles q] ∧
    Js.get q "keyword" = keyword_param kw ∧
    q !! "page" = None ∧ q !! "per_page" = None ∧
    (∀ f, Js.get q (field_key f) =
          if decide (Js.get (filterParams s) (field_key f) = SELECT_ALL_VALUE)
          then Js.Undefined else Js.get (filterParams s) (field_key f)).
Proof.
  intros Hs.
  pose proof (reachable_watchQueued _ _ s Hs) as Hq.
  pose proof (reachable_keys _ _ s Hs) as Hd.
  rewrite step_plain by done. simpl handle. unfold_monad. cbn [fst snd].
  split; [done |]. split; [done |]. split; [done |].
  rewrite step_plain by done. simpl handle. rewrite fetchData_run.
  cbv zeta. cbn [fst snd filterParams serarchKeyword upd_serarchKeyword].
  eexists. split; [reflexivity |].
  split; [apply fetchData_getParams_reads_keyword |].
  split; [| split].
  - rewrite fetchData_getParams_other by done. simpl.
    rewrite (not_filter_key _ "page" Hd page_not_filter_key).
    by rewrite lookup_empty.
  - rewrite fetchData_getParams_other by done. simpl.
    rewrite (not_filter_key _ "per_page" Hd per_page_not_filter_key).
    by rewrite lookup_empty.
  - intros f. by apply fetchData_getParams_filter_field.
Qed.

(** X8.  In a reachable state, when a pending list fetch rejects, nothing
    is sent and nothing scrolls; the article list and its pagination, the
    filter params, the keyword and the selection stay as they were; the
    request is no longer pending and its loading indicator is stopped. *)
Theorem list_fetch_rejected s (i : nat) :
  reachable s →
  is_Some (articleRequests s !! i) →
  let r := step (ArticlesSettled i None) s in
  r.2 = [] ∧
  article r.1 = article s ∧
  filterParams r.1 = filterParams s ∧
  serarchKeyword r.1 = serarchKeyword s ∧
  selectedIds r.1 = selectedIds s ∧
  articleRequests r.1 = delete i (articleRequests s) ∧
  loading r.1 = loading_stop (loading s).
Proof.
  intros Hs [q Hi]. cbv zeta.
  rewrite step_ArticlesSettled
    by exact (reachable_watchQueued SortTypeWithHot_Desc flush s Hs).
  rewrite Hi. simpl. repeat split; reflexivity.
Qed.

Lemma step_CategoriesSettled result s :
  watchQueued s = false →
  step (CategoriesSettled result) s =
  match categoryRequests s with
  | S n =>
      let s1 := upd_loadingCategory loading_stop
                  (upd_categoryRequests (λ _, n) s) in
      match result with
      | Some tree => (upd_categoriesTree (λ _, tree) s1, [])
      | None => (s1, [])
      end
  | O => (s, [])
  end.
Proof.
  intros Hq. rewrite step_plain by done. simpl. unfold_monad. simpl.
  destruct (categoryRequests s); [done |]. by destruct result.
Qed.

Lemma step_TagsSettled result s :
  watchQueued s = false →
  step (TagsSettled result) s =
  match tagRequests s with
  | S n =>
      let s1 := upd_loadingTag loading_stop (upd_tagRequests (λ _, n) s) in
      match result with
      | Some result_data => (upd_tags (λ _, result_data) s1, [])
      | None => (s1, [])
      end
  | O => (s, [])
  end.
Proof.
  intros Hq. rewrite step_plain by done. simpl. unfold_monad. simpl.
  destruct (tagRequests s); [done |]. by destruct result.
Qed.

(** X9.  In a reachable state with a pending categories fetch, its
    resolution replaces the category tree by the tree of the result and
    its rejection leaves the tree as it was; the same for the tags.
    Either way nothing is sent, and the article list, the filter params,
    the keyword and the other of the two lists are left alone. *)
Theorem categories_and_tags_settle s
    (tree : list CategoryTree) (result_data : list Tag) :
  reachable s →
  (categoryRequests s ≠ 0 →
   categoriesTree (step (CategoriesSettled (Some tree)) s).1 = tree ∧
   categoriesTree (step (CategoriesSettled None) s).1 = categoriesTree s ∧
   ∀ result,
     let r := step (CategoriesSettled result) s in
     r.2 = [] ∧ tags r.1 = tags s ∧ article r.1 = article s ∧
     filterParams r.1 = filterParams s ∧
     serarchKeyword r.1 = serarchKeyword s ∧
     categoryRequests r.1 = Nat.pred (categoryRequests s)) ∧
  (tagRequests s ≠ 0 →
   tags (step (TagsSettled (Some result_data)) s).1 = result_data ∧
   tags (step (TagsSettled None) s).1 = tags s ∧
   ∀ result,
     let r := step (TagsSettled result) s in
     r.2 = [] ∧ categoriesTree r.1 = categoriesTree s ∧
     article r.1 = article s ∧
     filterParams r.1 = filterParams s ∧
     serarchKeyword r.1 = serarchKeyword s ∧
     tagRequests r.1 = Nat.pred (tagRequests s)).
Proof.
  intros Hs.
  pose proof (reachable_watchQueued _ _ s Hs) as Hq.
  split; intros Hn.
  - rewrite !step_CategoriesSettled by done.
    destruct (categoryRequests s) as [|n] eqn:Hc; [done |].
    split; [done |]. split; [done |].
    intros result. cbv zeta. rewrite step_CategoriesSettled, Hc by done.
    by destruct result.
  - rewrite !step_TagsSettled by done.
    destruct (tagRequests s) as [|n] eqn:Hc; [done |].
    split; [done |]. split; [done |].
    intros result. cbv zeta. rewrite step_TagsSettled, Hc by done.
    by destruct result.
Qed.

(** X10.  The mount sends three requests, in this order: the list request
    of [fetchData()], which from the first render reads the default sort
    and nothing else, then the categories and the tags, each with
    [per_page] 50; afterwards one request of each kind is pending. *)
Theorem mount_requests :
  SortTypeWithHot_Desc ≠ SELECT_ALL_VALUE →
  ∃ q,
    (step Mounted init).2 =
      [GetArticles q;
       GetCategories {[ "per_page" := Js.Num 50 ]};
       GetTags {[ "per_page" := Js.Num 50 ]}] ∧
    (∀ k, Js.get q k =
          if decide (k = "sort") then SortTypeWithHot_Desc
          else Js.Undefined) ∧
    articleRequests (step Mounted init).1 = [q] ∧
    categoryRequests (step Mounted init).1 = 1 ∧
    tagRequests (step Mounted init).1 = 1.
Proof.
  intros Hsort.
  exists (fetchData_getParams None DEFAULTS EmptyString).
  rewrite step_plain by done.
  split; [reflexivity |].
  split; [intros k; by apply default_request |].
  split; [reflexivity |]. split; reflexivity.
Qed.

End OtherHandlers.

(** ** Who writes which part of the state *)

Section Ownership.

Variable SortTypeWithHot_Desc : Js.value.
Variable flush : WatchFlush.
Context {use_loading : UseLoading}.

Local Abbreviation step := (step SortTypeWithHot_Desc flush).
Local Abbreviation handle := (handle SortTypeWithHot_Desc flush).
Local Abbreviation reachable := (reachable SortTypeWithHot_Desc flush).
Local Abbreviation DEFAULTS := (DEFAULT_FILTER_PARAMS SortTypeWithHot_Desc).

Implicit Types (s : State) (e : event).

(** X11.  The selection is written by the selection callback of the table
    and by nothing else: [Select] stores the ids it is given, and every
    other step leaves the selection as it was.  In particular a state
    change that went through, and the refresh after it, do not clear the
    selection. *)
Theorem selection_changes_only_by_select s e :
  (∀ ids, selectedIds (step (Select ids) s).1 = ids) ∧
  ((∀ ids, e ≠ Select ids) → selectedIds (step e s).1 = selectedIds s).
Proof.
  assert (∀ e', preserves (λ s', selectedIds s' = selectedIds (handle e' s).1.2)
                  flush_watch) as Hflush.
  { intros e'. apply preserves_flush_watch; intros ? ? H; exact H. }
  split.
  - intros ids. rewrite step_run. cbv zeta. cbn [fst].
    by rewrite (Hflush (Select ids) _ eq_refl).
  - intros He. rewrite step_run. cbv zeta. cbn [fst].
    rewrite (Hflush e _ eq_refl).
    assert (preserves (λ s', selectedIds s' = selectedIds s) (handle e))
      as Hp; [| by apply Hp].
    destruct e; simpl; try (frame; fail).
    + apply preserves_filterParams_set; try (intros ? ? H; exact H).
      intros ? H; exact H.
    + apply preserves_resetParamsAndRefresh; try (intros ? ? H; exact H).
      intros ? ? ? H _; exact H.
    + by destruct (He ids).
Qed.

(** X12.  The article list and its pagination are written by the
    resolution of a list fetch and by nothing else: a step of any other
    event (a filter change, a search, a reset, a rejected fetch, a state
    change, ...) leaves them as they were. *)
Theorem article_changes_only_by_resolved_fetch s e :
  (∀ i r, e ≠ ArticlesSettled i (Some r)) →
  article (step e s).1 = article s.
Proof.
  intros He. rewrite step_run. cbv zeta. cbn [fst].
  apply (preserves_flush_watch (λ s', article s' = article s));
    try (intros ? ? H; exact H).
  assert (preserves (λ s', article s' = article s) (handle e))
    as Hp; [| by apply Hp].
  destruct e; simpl; try (frame; fail).
  - apply preserves_filterParams_set; try (intros ? ? H; exact H).
    intros ? H; exact H.
  - apply preserves_resetParamsAndRefresh; try (intros ? ? H; exact H).
    intros ? ? ? H _; exact H.
  - destruct result as [r|]; [by destruct (He i r) | frame].
Qed.

(** X13.  Whatever the scheduling of the watcher, a reset in a reachable
    state leaves the default filter params and the empty keyword, and the
    last list request of its step reads the default sort and nothing
    else. *)
Theorem reset_asks_for_defaults s :
  SortTypeWithHot_Desc ≠ SELECT_ALL_VALUE →
  reachable s →
  filterParams (step ResetClick s).1 = DEFAULTS ∧
  serarchKeyword (step ResetClick s).1 = EmptyString ∧
  ∃ pre q,
    (step ResetClick s).2 = pre ++ [GetArticles q] ∧
    ∀ k, Js.get q k =
         if decide (k = "sort") then SortTypeWithHot_Desc else Js.Undefined.
Proof.
  intros Hsort Hs.
  destruct (reset_ends_with_default_fetch SortTypeWithHot_Desc flush s Hs)
    as (H1 & H2 & pre & H3).
  split; [exact H1 |]. split; [exact H2 |].
  exists pre, (fetchData_getParams None DEFAULTS EmptyString).
  split; [exact H3 |]. intros k. by apply default_request.
Qed.

(** X14.  Whatever the scheduling of the watcher, a reset in a reachable
    state whose filter params are the defaults sends exactly one list
    request, whatever the keyword was, and leaves the defaults in place;
    so a reset right after a reset sends exactly one request. *)
Theorem reset_on_defaults_fetches_once s :
  reachable s →
  (filterParams s = DEFAULTS →
   (step ResetClick s).2 =
     [GetArticles (fetchData_getParams None DEFAULTS EmptyString)] ∧
   filterParams (step ResetClick s).1 = DEFAULTS ∧
   serarchKeyword (step ResetClick s).1 = EmptyString) ∧
  (step ResetClick (step ResetClick s).1).2 =
    [GetArticles (fetchData_getParams None DEFAULTS EmptyString)].
Proof.
  assert (∀ x, reachable x → filterParams x = DEFAULTS →
               (step ResetClick x).2 =
                 [GetArticles (fetchData_getParams None DEFAULTS EmptyString)] ∧
               filterParams (step ResetClick x).1 = DEFAULTS ∧
               serarchKeyword (step ResetClick x).1 = EmptyString) as Hone.
  { intros x Hx He.
    pose proof (reachable_watchQueued _ _ x Hx) as Hq.
    rewrite step_ResetClick, resetParamsAndRefresh_run. cbv zeta.
    rewrite decide_True by done.
    rewrite fetchData_run, flush_watch_run. cbv zeta.
    cbn [fst snd filterParams serarchKeyword watchQueued upd_serarchKeyword
         upd_articleRequests upd_loading].
    rewrite Hq. cbn [fst snd app filterParams serarchKeyword
                     upd_serarchKeyword upd_articleRequests upd_loading].
    by rewrite He. }
  intros Hs. split; [by apply Hone |].
  apply Hone; [by apply reachable_step |].
  by destruct (reset_ends_with_default_fetch SortTypeWithHot_Desc flush s Hs)
    as (H1 & _).
Qed.

(** X15.  In a reachable state, a state-change request that the user
    cancels leaves no trace: after the row action (or an enabled entry of
    the bulk menu) opened the dialog and the user cancelled it, the state
    is the one before the request, and no endpoint was called. *)
Theorem cancelled_request_leaves_no_trace s (a : Article) (st : PublishState)
    (i : nat) (o : BulkOption) :
  reachable s →
  step (ModalCancel (length (modals s))) (step (UpdateState a st) s).1
    = (s, []) ∧
  (bulk_disabled s = false → bulkOptions !! i = Some o →
   (step (BulkMenuClick i) s).2 = [ModalConfirm (selectedIds s) (target o)] ∧
   step (ModalCancel (length (modals s))) (step (BulkMenuClick i) s).1
     = (s, [])).
Proof.
  intros Hs.
  pose proof (reachable_watchQueued _ _ s Hs) as Hq.
  assert (∀ x, upd_modals (delete (length (modals s)))
                 (upd_modals (λ ms, ms ++ [x]) s) = s) as Hback.
  { intros x. destruct s. unfold upd_modals. simpl. f_equal.
    rewrite (delete_middle _ []). apply app_nil_r. }
  split.
  - rewrite (step_UpdateState _ _ a st s Hq). cbn [fst].
    rewrite step_ModalCancel by exact Hq. by rewrite Hback.
  - intros Hd Ho. rewrite (step_BulkMenuClick _ _ i s Hq), Hd, Ho.
    cbn [fst snd]. split; [done |].
    rewrite step_ModalCancel by exact Hq. by rewrite Hback.
Qed.

End Ownership.

(** ** The further properties on concrete runs *)

Lemma sentinel_loop_is_filter_witness :
  let o : Js.object :=
    <["state" := SELECT_ALL_VALUE]> (<["sort" := Js.Num (-1)]> ∅) in
  Js.forEach (Js.keys o) deleteIfAll o =
  filter (λ kv : string * Js.value, kv.2 ≠ SELECT_ALL_VALUE) o.
Proof.
  cbv zeta.
  refine (proj1 (sentinel_loop_is_filter _ _ _)).
  intros k Hk. by apply elem_of_keys.
Defined.

Lemma caller_params_do_not_override_witness :
  fetchData_getParams
    (Some (<["state" := Js.Num 1]> {[ "page" := Js.Num 2 ]}))
    (DEFAULT_FILTER_PARAMS (Js.Num (-1))) EmptyString
  = fetchData_getParams (Some {[ "page" := Js.Num 2 ]})
      (DEFAULT_FILTER_PARAMS (Js.Num (-1))) EmptyString.
Proof.
  refine (proj1 (caller_params_do_not_override _ _ _ _ _)).
  intros k Hk _. apply lookup_insert_ne. intros <-. discriminate Hk.
Defined.

Lemma no_request_carries_sentinel_witness :
  fetchData_getParams None (DEFAULT_FILTER_PARAMS (Js.Num (-1))) EmptyString
    !! "state" ≠ Some SELECT_ALL_VALUE.
Proof.
  apply (no_request_carries_sentinel (Js.Num (-1)) WatchSync
           (use_loading := flag_loading) (init (Js.Num (-1))) Mounted).
  left.
Defined.

Lemma requests_carry_current_keyword_witness :
  Js.get
    (fetchData_getParams None (DEFAULT_FILTER_PARAMS (Js.Num (-1))) "veact")
    "keyword" = Js.Str "veact".
Proof.
  apply (requests_carry_current_keyword (Js.Num (-1)) WatchSync
           (use_loading := flag_loading)
           (run (Js.Num (-1)) WatchSync [KeywordChange "veact"]
              (init (Js.Num (-1)))).1
           Search).
  left.
Defined.

Lemma only_pagination_sends_page_witness :
  fetchData_getParams None (DEFAULT_FILTER_PARAMS (Js.Num (-1))) EmptyString
    !! "page" = None.
Proof.
  refine (proj1
    (only_pagination_sends_page (Js.Num (-1)) WatchSync
       (use_loading := flag_loading) (init (Js.Num (-1))) Search _ _ _ _)).
  - by exists [].
  - reflexivity.
  - left.
Defined.

Lemma paginate_request_witness :
  ∃ q,
    (step (Js.Num (-1)) WatchSync (use_loading := flag_loading)
       (Paginate 2 16) (init (Js.Num (-1)))).2 = [GetArticles q] ∧
    Js.get q "page" = Js.Num 2 ∧ Js.get q "per_page" = Js.Num 16.
Proof.
  destruct (paginate_request (Js.Num (-1)) WatchSync
              (use_loading := flag_loading) (init (Js.Num (-1))) 2 16)
    as (q & H1 & H2 & H3 & _).
  - by exists [].
  - exists q. split; [exact H1 |]. split; [exact H2 | exact H3].
Defined.

Lemma typed_keyword_is_sent_on_search_witness :
  (step (Js.Num (-1)) WatchSync (use_loading := flag_loading)
     (KeywordChange "veact") (init (Js.Num (-1)))).2 = [].
Proof.
  refine (proj1
    (typed_keyword_is_sent_on_search (Js.Num (-1)) WatchSync
       (use_loading := flag_loading) (init (Js.Num (-1))) "veact" _)).
  by exists [].
Defined.

Lemma list_fetch_rejected_witness :
  let s := (run (Js.Num (-1)) WatchSync (use_loading := flag_loading)
              [Mounted; ArticlesSettled 0 (Some sample_page); Search]
              (init (Js.Num (-1)))).1 in
  article (step (Js.Num (-1)) WatchSync (ArticlesSettled 0 None) s).1
  = article s.
Proof.
  cbv zeta.
  refine (proj1 (proj2
    (list_fetch_rejected (Js.Num (-1)) WatchSync
       (use_loading := flag_loading) _ 0 _ _))).
  - by eexists.
  - exists (fetchData_getParams None (DEFAULT_FILTER_PARAMS (Js.Num (-1)))
              EmptyString).
    vm_compute. reflexivity.
Defined.

Lemma categories_and_tags_settle_witness :
  categoriesTree
    (step (Js.Num (-1)) WatchSync (use_loading := flag_loading)
       (CategoriesSettled (Some [ {| category_slug := "code" |} ]))
       (run (Js.Num (-1)) WatchSync [Mounted] (init (Js.Num (-1)))).1).1
  = [ {| category_slug := "code" |} ].
Proof.
  refine (proj1 (proj1
    (categories_and_tags_settle (Js.Num (-1)) WatchSync
       (use_loading := flag_loading) _ [ {| category_slug := "code" |} ] []
       _) _)).
  - by eexists.
  - discriminate.
Defined.

Lemma mount_requests_witness :
  ∃ q,
    (step (Js.Num (-1)) WatchDeferred (use_loading := flag_loading)
       Mounted (init (Js.Num (-1)))).2 =
      [GetArticles q;
       GetCategories {[ "per_page" := Js.Num 50 ]};
       GetTags {[ "per_page" := Js.Num 50 ]}] ∧
    Js.get q "sort" = Js.Num (-1) ∧ Js.get q "state" = Js.Undefined.
Proof.
  destruct (mount_requests (Js.Num (-1)) WatchDeferred
              (use_loading := flag_loading))
    as (q & H1 & H2 & _).
  - discriminate.
  - exists q. split; [exact H1 |].
    split; [exact (H2 "sort") | exact (H2 "state")].
Defined.

Lemma article_changes_only_by_resolved_fetch_witness :
  article
    (step (Js.Num (-1)) WatchSync (use_loading := flag_loading)
       (FilterChange FState (Js.Num 1))
       (run (Js.Num (-1)) WatchSync
          [Mounted; ArticlesSettled 0 (Some sample_page)]
          (init (Js.Num (-1)))).1).1
  = sample_page.
Proof.
  refine (article_changes_only_by_resolved_fetch (Js.Num (-1)) WatchSync
            (use_loading := flag_loading) _ (FilterChange FState (Js.Num 1)) _).
  intros i r. discriminate.
Defined.

Lemma reset_asks_for_defaults_witness :
  filterParams
    (step (Js.Num (-1)) WatchSync (use_loading := flag_loading) ResetClick
       (run (Js.Num (-1)) WatchSync
          [FilterChange FState (Js.Num 1); FilterChange FLang (Js.Str "en")]
          (init (Js.Num (-1)))).1).1
  = DEFAULT_FILTER_PARAMS (Js.Num (-1)).
Proof.
  refine (proj1
    (reset_asks_for_defaults (Js.Num (-1)) WatchSync
       (use_loading := flag_loading) _ _ _)).
  - discriminate.
  - by eexists.
Defined.

Lemma reset_on_defaults_fetches_once_witness :
  (step (Js.Num (-1)) WatchSync (use_loading := flag_loading) ResetClick
     (step (Js.Num (-1)) WatchSync ResetClick
        (run (Js.Num (-1)) WatchSync
           [FilterChange FState (Js.Num 1); FilterChange FLang (Js.Str "en")]
           (init (Js.Num (-1)))).1).1).2
  = [GetArticles
       (fetchData_getParams None (DEFAULT_FILTER_PARAMS (Js.Num (-1)))
          EmptyString)].
Proof.
  refine (proj2
    (reset_on_defaults_fetches_once (Js.Num (-1)) WatchSync
       (use_loading := flag_loading) _ _)).
  by eexists.
Defined.

Lemma cancelled_request_leaves_no_trace_witness :
  step (Js.Num (-1)) WatchSync (use_loading := flag_loading) (ModalCancel 0)
    (step (Js.Num (-1)) WatchSync
       (UpdateState {| _id := Js.Str "a1" |} Recycle) (init (Js.Num (-1)))).1
  = (init (Js.Num (-1)), []).
Proof.
  refine (proj1
    (cancelled_request_leaves_no_trace (Js.Num (-1)) WatchSync
       (use_loading := flag_loading) (init (Js.Num (-1)))
       {| _id := Js.Str "a1" |} Recycle 0
       {| label := "退为草稿"; target := Draft |} _)).
  by exists [].
Defined.
